(** * Crop-yield training pipeline ([ml-service/train_model_v2.py])

    A shallow embedding of the data-preparation and validation code of the
    training script, and the properties of it that the specification states.

    Conventions of the embedding.
    - A pandas [DataFrame] is its list of column labels together with its
      rows, each row a finite map from label to cell (what [df.apply(f,
      axis=1)] hands to [f]).
    - A cell is a number, a string, or the missing value NaN.  Numbers are
      rationals: the script only compares, adds and multiplies them.
    - Strings are ASCII text: [str.lower] acts on [A-Z], [str.strip] removes
      the ASCII white space of Python's [str.isspace].
    - A Python exception is a [Raise] result.
    - Lines of the run report ([print]) are kept only where evaluating them
      can raise. *)

From Stdlib Require Import Ascii String QArith.
From Stdlib Require OrderedTypeEx.
From stdpp Require Import gmap strings list fin_maps sorting.

Open Scope string_scope.

(** ** Results of fallible code *)

Inductive exn := KeyError | TypeError | ValueError | ZeroDivisionError.

Inductive result (A : Type) :=
  | Ok (a : A)
  | Raise (e : exn).
Arguments Ok {A} a.
Arguments Raise {A} e.

#[global] Instance result_ret : MRet result := @Ok.

#[global] Instance result_bind : MBind result := λ A B k m,
  match m with
  | Ok a => k a
  | Raise e => Raise e
  end.

(** [[f(x) for x in l]], stopping at the first exception. *)
Fixpoint rmap {A B} (f : A → result B) (l : list A) : result (list B) :=
  match l with
  | [] => Ok []
  | x :: l' => y ← f x; ys ← rmap f l'; Ok (y :: ys)
  end.

(** ** Strings: [str.lower] and [str.strip] *)

Definition is_upper (c : ascii) : bool :=
  let n := nat_of_ascii c in (65 <=? n)%nat && (n <=? 90)%nat.

Definition lower_ascii (c : ascii) : ascii :=
  if is_upper c then ascii_of_nat (nat_of_ascii c + 32) else c.

Fixpoint lower (s : string) : string :=
  match s with
  | EmptyString => EmptyString
  | String c s' => String (lower_ascii c) (lower s')
  end.

(** White space below code point 128: tab, line feed, vertical tab, form
    feed, carriage return, the four separators 28-31 and the blank. *)
Definition is_space (c : ascii) : bool :=
  let n := nat_of_ascii c in
  ((9 <=? n)%nat && (n <=? 13)%nat) || ((28 <=? n)%nat && (n <=? 32)%nat).

Fixpoint lstrip (s : string) : string :=
  match s with
  | EmptyString => EmptyString
  | String c s' => if is_space c then lstrip s' else s
  end.

Fixpoint rstrip (s : string) : string :=
  match s with
  | EmptyString => EmptyString
  | String c s' =>
      match rstrip s' with
      | EmptyString => if is_space c then EmptyString else String c EmptyString
      | t => String c t
      end
  end.

Definition strip (s : string) : string := rstrip (lstrip s).

(** ** Cells, rows and tables *)

Inductive cell :=
  | Num (q : Q)
  | Str (s : string)
  | NaN.

#[global] Instance Q_inhabited : Inhabited Q := populate 0%Q.
#[global] Instance cell_inhabited : Inhabited cell := populate NaN.

Record DataFrame := mkDF {
  columns : list string;
  rows : list (gmap string cell)
}.

(** [c in df.columns] *)
Definition has_column (c : string) (df : DataFrame) : bool :=
  bool_decide (c ∈ columns df).

(** [len(df)] *)
Definition len (df : DataFrame) : nat := length (rows df).

(** [df[mask]]: the rows whose mask entry is true, in their order. *)
Fixpoint select {A} (mask : list bool) (l : list A) : list A :=
  match mask, l with
  | b :: mask', x :: l' => if b then x :: select mask' l' else select mask' l'
  | _, _ => []
  end.

(** ** Configuration *)

Definition CROP_YIELD_LIMITS : gmap string (Q * Q) :=
  list_to_map
    [ ("rice", (500, 8000)%Q);
      ("wheat", (500, 7000)%Q);
      ("maize", (500, 12000)%Q);
      ("cotton", (100, 3000)%Q);
      ("sugarcane", (30000, 150000)%Q);
      ("groundnut", (300, 4000)%Q);
      ("soybean", (300, 4000)%Q);
      ("soyabean", (300, 4000)%Q);
      ("bajra", (200, 3500)%Q);
      ("jowar", (200, 3500)%Q);
      ("potato", (5000, 50000)%Q);
      ("onion", (5000, 40000)%Q);
      ("tomato", (10000, 80000)%Q);
      ("default", (50, 100000)%Q) ].

Definition SEASON_MAPPING : gmap string string :=
  list_to_map
    [ ("winter", "rabi");
      ("summer", "zaid");
      ("autumn", "kharif");
      ("whole year", "annual");
      ("monsoon", "kharif") ].

(** ** Agronomic outlier detection *)

(** [str(row[crop_col]).lower().strip()].  The text of NaN is ["nan"]; the
    text of a number starts with a digit, a sign or a dot and is no key of
    [CROP_YIELD_LIMITS], which [None] stands for. *)
Definition crop_key (c : cell) : option string :=
  match c with
  | Str s => Some (strip (lower s))
  | NaN => Some "nan"
  | Num _ => None
  end.

(** [CROP_YIELD_LIMITS.get(crop, CROP_YIELD_LIMITS['default'])] *)
Definition limits_of (key : option string) : Q * Q :=
  default (CROP_YIELD_LIMITS !!! "default") (key ≫= (CROP_YIELD_LIMITS !!.)).

Definition is_valid_yield (row : gmap string cell) : result bool :=
  match row !! "crop" with
  | None => Raise KeyError
  | Some c =>
      let crop := crop_key c in
      match row !! "yield" with
      | None => Raise KeyError
      | Some NaN => Ok false
      | Some (Str _) => Raise TypeError
      | Some (Num yield_val) =>
          if Qle_bool yield_val 0 then Ok false
          else
            let limits := limits_of crop in
            Ok (Qle_bool (fst limits) yield_val && Qle_bool yield_val (snd limits))
      end
  end.

(** The summary line divides by [initial_count]. *)
Definition detect_agronomic_outliers (df : DataFrame) : result DataFrame :=
  let initial_count := len df in
  mask ← rmap is_valid_yield (rows df);
  let df_clean := mkDF (columns df) (select mask (rows df)) in
  if (initial_count =? 0)%nat then Raise ZeroDivisionError else Ok df_clean.

(** ** Column operations *)

(** [df[c]] for a label of the table. *)
Definition col (c : string) (df : DataFrame) : list cell :=
  (λ r : gmap string cell, r !!! c) <$> rows df.

(** [df[c] = vals], with [vals] as long as the table: an existing column is
    overwritten, a new one is appended to the labels. *)
Definition set_column (c : string) (vals : list cell) (df : DataFrame) : DataFrame :=
  mkDF (if has_column c df then columns df else columns df ++ [c])
       (zip_with (λ (r : gmap string cell) v, <[c:=v]> r) (rows df) vals).

(** [df[c] = df[c].apply(f)] *)
Definition map_column (c : string) (f : cell → cell) (df : DataFrame) : DataFrame :=
  set_column c (f <$> col c df) df.

(** [df.columns = [f(c) for c in df.columns]].  Labels that [f] makes equal
    would be duplicate labels in pandas; here the first one is kept. *)
Definition rename_columns (f : string → string) (df : DataFrame) : DataFrame :=
  mkDF (f <$> columns df)
       ((λ r : gmap string cell,
           list_to_map ((λ c, (f c, r !!! c)) <$> columns df)) <$> rows df).

(** ** Library functions taken as given *)

(** The text of a number ([str], [astype(str)]), the number of a text
    ([pd.to_numeric]) and the square root of the scaler. *)
Class Numerics := {
  num_text : Q → string;
  text_num : string → option Q;
  np_sqrt : Q → Q
}.

(** numpy's global generator: [np.random.seed], one sample of [[0, 1)] and
    one index below a bound, each with the state that follows. *)
Class Generator := {
  gen_state : Type;
  seed : Z → gen_state;
  random_sample : gen_state → Q * gen_state;
  randint : nat → gen_state → nat * gen_state
}.

(** ** Steps 1 to 5 of [preprocess_data]: schema normalisation *)

Definition upper_ascii (c : ascii) : ascii :=
  let n := nat_of_ascii c in
  if (97 <=? n)%nat && (n <=? 122)%nat then ascii_of_nat (n - 32) else c.

Fixpoint upper (s : string) : string :=
  match s with
  | EmptyString => EmptyString
  | String c s' => String (upper_ascii c) (upper s')
  end.

(** [s.replace(' ', '_')] *)
Fixpoint replace_blank (s : string) : string :=
  match s with
  | EmptyString => EmptyString
  | String c s' =>
      String (if Ascii.eqb c " " then "_"%char else c) (replace_blank s')
  end.

(** [s in t] *)
Fixpoint contains (s t : string) : bool :=
  String.prefix s t ||
  match t with
  | EmptyString => false
  | String _ t' => contains s t'
  end.

Definition normalize_name (c : string) : string :=
  replace_blank (lower (strip c)).

Definition column_mapping : list (string * string) :=
  [ ("annual_rainfall", "rainfall");
    ("area", "area_hectares");
    ("crop_year", "year") ].

Definition REGION_MAPPING : list (string * list string) :=
  [ ("north-india", ["JAMMU"; "KASHMIR"; "HIMACHAL"; "PUNJAB"; "HARYANA";
                     "UTTARAKHAND"; "UTTAR PRADESH"; "DELHI"]);
    ("south-india", ["ANDHRA"; "TELANGANA"; "KARNATAKA"; "TAMIL"; "KERALA";
                     "PUDUCHERRY"]);
    ("east-india", ["BIHAR"; "JHARKHAND"; "WEST BENGAL"; "ODISHA"; "ASSAM";
                    "SIKKIM"; "ARUNACHAL"; "NAGALAND"; "MANIPUR"; "MIZORAM";
                    "TRIPURA"; "MEGHALAYA"]);
    ("west-india", ["RAJASTHAN"; "GUJARAT"; "MAHARASHTRA"; "GOA"]);
    ("central-india", ["MADHYA"; "CHHATTISGARH"]) ].

Section Normalisation.
Context `{Numerics}.

(** [str(v)] *)
Definition py_str (v : cell) : string :=
  match v with
  | Str s => s
  | Num q => num_text q
  | NaN => "nan"
  end.

Definition map_state_to_region (state : cell) : string :=
  match state with
  | NaN => "central-india"
  | _ =>
      let state_upper := upper (py_str state) in
      match
        List.find (λ '(_, states), existsb (λ s, contains s state_upper) states)
                  REGION_MAPPING
      with
      | Some (region, _) => region
      | None => "central-india"
      end
  end.

Definition normalize_season (season : cell) : string :=
  match season with
  | NaN => "kharif"
  | _ =>
      let season_lower := strip (lower (py_str season)) in
      default season_lower (SEASON_MAPPING !! season_lower)
  end.

(** Step 1 *)
Definition normalize_columns (df : DataFrame) : DataFrame :=
  rename_columns normalize_name df.

(** Step 2 *)
Definition apply_column_mapping (df : DataFrame) : DataFrame :=
  foldl (λ df '(old, new),
           if has_column old df && negb (has_column new df)
           then set_column new (col old df) df else df)
        df column_mapping.

(** Step 3: [fillna('unknown').astype(str).str.lower().str.strip()] *)
Definition clean_string (v : cell) : cell :=
  match v with
  | NaN => Str "unknown"
  | _ => Str (strip (lower (py_str v)))
  end.

Definition string_cols : list string := ["state"; "district"; "crop"; "season"].

Definition clean_string_columns (df : DataFrame) : DataFrame :=
  foldl (λ df c, if has_column c df then map_column c clean_string df else df)
        df string_cols.

(** Step 4 *)
Definition normalize_season_column (df : DataFrame) : DataFrame :=
  if has_column "season" df
  then map_column "season" (λ v, Str (normalize_season v)) df
  else df.

(** Step 5 *)
Definition add_region (df : DataFrame) : DataFrame :=
  if negb (has_column "region" df) && has_column "state" df
  then set_column "region" ((λ v, Str (map_state_to_region v)) <$> col "state" df) df
  else df.
End Normalisation.

(** ** Step 6: unit conversion of the yield *)

Fixpoint insert_sorted (x : Q) (l : list Q) : list Q :=
  match l with
  | [] => [x]
  | y :: l' => if Qle_bool x y then x :: l else y :: insert_sorted x l'
  end.

Definition sorted_Q (l : list Q) : list Q := foldr insert_sorted [] l.

(** The numbers of a numeric column, NaN skipped; a string in it makes the
    arithmetic on the column raise. *)
Fixpoint numeric_values (l : list cell) : result (list Q) :=
  match l with
  | [] => Ok []
  | Num q :: l' => qs ← numeric_values l'; Ok (q :: qs)
  | NaN :: l' => numeric_values l'
  | Str _ :: _ => Raise TypeError
  end.

(** [Series.median()]: the middle of the sorted values, the mean of the two
    middle ones for an even count, NaN ([None]) when there is none. *)
Definition median (vals : list Q) : option Q :=
  let s := sorted_Q vals in
  let n := length s in
  if (n =? 0)%nat then None
  else if Nat.odd n then s !! (n / 2)%nat
  else Some ((s !!! (n / 2 - 1)%nat + s !!! (n / 2)%nat) / 2)%Q.

Definition Qlt_bool (x y : Q) : bool := negb (Qle_bool y x).

(** [v * k] on a cell of a numeric column *)
Definition scale_cell (k : Q) (v : cell) : cell :=
  match v with
  | Num q => Num (q * k)
  | _ => v
  end.

Definition convert_yield (df : DataFrame) : result DataFrame :=
  if has_column "yield" df then
    vals ← numeric_values (col "yield" df);
    match median vals with
    | Some m =>
        if Qlt_bool m 100
        then Ok (map_column "yield" (scale_cell 1000) df)
        else Ok df
    | None => Ok df
    end
  else Ok df.

(** ** Step 7b: backfill of the weather, soil and satellite columns *)

Definition soil_types : list string :=
  ["clay"; "sandy"; "loamy"; "black"; "red"; "alluvial"].

(** [v + x], the sum of a cell of the temperature column and a number *)
Definition add_cell (v : cell) (x : Q) : result cell :=
  match v with
  | Num t => Ok (Num (t + x))
  | NaN => Ok NaN
  | Str _ => Raise TypeError
  end.

Fixpoint add_cells (vs : list cell) (xs : list Q) : result (list cell) :=
  match vs, xs with
  | v :: vs', x :: xs' => y ← add_cell v x; ys ← add_cells vs' xs'; Ok (y :: ys)
  | _, _ => Ok []
  end.

Section Backfill.
Context `{Generator}.

Fixpoint random_samples (size : nat) (g : gen_state) : list Q * gen_state :=
  match size with
  | O => ([], g)
  | S n =>
      let '(u, g1) := random_sample g in
      let '(us, g2) := random_samples n g1 in
      (u :: us, g2)
  end.

(** [np.random.uniform(low, high, size)] *)
Definition uniform (low high : Q) (size : nat) (g : gen_state)
  : list Q * gen_state :=
  let '(us, g') := random_samples size g in
  ((λ u, low + (high - low) * u)%Q <$> us, g').

Fixpoint randints (bound size : nat) (g : gen_state) : list nat * gen_state :=
  match size with
  | O => ([], g)
  | S n =>
      let '(i, g1) := randint bound g in
      let '(ix, g2) := randints bound n g1 in
      (i :: ix, g2)
  end.

(** [np.random.choice(a, size)] *)
Definition choice (a : list string) (size : nat) (g : gen_state)
  : list string * gen_state :=
  let '(ix, g') := randints (length a) size g in
  ((λ i : nat, a !!! i) <$> ix, g').

Definition backfill_weather (df : DataFrame) (g : gen_state)
  : DataFrame * gen_state :=
  if negb (has_column "temperature" df) then
    let '(t, g) := uniform 25 35 (len df) g in
    let df := set_column "temperature" (Num <$> t) df in
    let '(h, g) := uniform 40 80 (len df) g in
    (set_column "humidity" (Num <$> h) df, g)
  else (df, g).

Definition backfill_soil_type (df : DataFrame) (g : gen_state)
  : DataFrame * gen_state :=
  if negb (has_column "soil_type" df) then
    let '(s, g) := choice soil_types (len df) g in
    (set_column "soil_type" (Str <$> s) df, g)
  else (df, g).

Definition backfill_satellite (df : DataFrame) (g : gen_state)
  : result DataFrame * gen_state :=
  if negb (has_column "ndvi" df) then
    let g := seed 42 in
    let '(v, g) := uniform (3 # 10) (8 # 10) (len df) g in
    let df := set_column "ndvi" (Num <$> v) df in
    let '(m, g) := uniform 15 45 (len df) g in
    let df := set_column "soil_moisture" (Num <$> m) df in
    if has_column "temperature" df then
      let '(d, g) := uniform (-2) 5 (len df) g in
      (lst ← add_cells (col "temperature" df) d; Ok (set_column "lst" lst df), g)
    else
      let '(l, g) := uniform 20 35 (len df) g in
      (Ok (set_column "lst" (Num <$> l) df), g)
  else (Ok df, g).

Definition backfill (df : DataFrame) (g : gen_state)
  : result DataFrame * gen_state :=
  let '(df, g) := backfill_weather df g in
  let '(df, g) := backfill_soil_type df g in
  backfill_satellite df g.
End Backfill.

(** ** Step 8: engineered features *)

(** Arithmetic on the cells of a column.  A string operand raises; a zero
    divisor, an infinity or NaN in floating point, is written NaN. *)
Definition cell_add1 (v : cell) : result cell :=
  match v with
  | Num a => Ok (Num (a + 1))
  | NaN => Ok NaN
  | Str _ => Raise TypeError
  end.

Definition cell_div (v w : cell) : result cell :=
  match v, w with
  | Str _, _ | _, Str _ => Raise TypeError
  | Num a, Num b => Ok (if Qeq_bool b 0 then NaN else Num (a / b))
  | _, _ => Ok NaN
  end.

Definition cell_sub (v w : cell) : result cell :=
  match v, w with
  | Str _, _ | _, Str _ => Raise TypeError
  | Num a, Num b => Ok (Num (a - b))
  | _, _ => Ok NaN
  end.

Fixpoint rzip_with {A B C} (f : A → B → result C) (l : list A) (k : list B)
  : result (list C) :=
  match l, k with
  | x :: l', y :: k' => z ← f x y; zs ← rzip_with f l' k'; Ok (z :: zs)
  | _, _ => Ok []
  end.

(** [df[c]], a [KeyError] for a label the table does not have. *)
Definition get_column (c : string) (df : DataFrame) : result (list cell) :=
  if has_column c df then Ok (col c df) else Raise KeyError.

(** [df[num] / (df['area_hectares'] + 1)] *)
Definition per_hectare (num : string) (df : DataFrame) : result (list cell) :=
  n ← get_column num df;
  a ← get_column "area_hectares" df;
  a1 ← rmap cell_add1 a;
  rzip_with cell_div n a1.

(** [pd.cut] with edges 0, 500, 1000, 1500, 2000, inf and [astype(str)] *)
Definition rainfall_category (v : cell) : cell :=
  match v with
  | Num q =>
      Str (if Qle_bool q 0 then "nan"
           else if Qle_bool q 500 then "very_low"
           else if Qle_bool q 1000 then "low"
           else if Qle_bool q 1500 then "medium"
           else if Qle_bool q 2000 then "high"
           else "very_high")
  | _ => Str "nan"
  end.

(** [df.fillna(v)[c]] on one cell *)
Definition fillna (d : cell) (v : cell) : cell :=
  match v with
  | NaN => d
  | _ => v
  end.

Section Features.
Context `{Numerics}.

(** [pd.to_numeric(errors='coerce')] followed by [fillna(0)] *)
Definition to_numeric_fill0 (v : cell) : cell :=
  match v with
  | Num q => Num q
  | Str s => Num (default 0%Q (text_num s))
  | NaN => Num 0
  end.

(** 8a *)
Definition add_productivity_index (df : DataFrame) : result DataFrame :=
  if has_column "production" df && has_column "area_hectares" df then
    p ← per_hectare "production" df;
    Ok (set_column "productivity_index" p df)
  else Ok df.

(** 8b, for [fertilizer] and for [pesticide] *)
Definition add_intensity (c : string) (df : DataFrame) : result DataFrame :=
  if has_column c df then
    let df := map_column c to_numeric_fill0 df in
    i ← per_hectare c df;
    Ok (set_column (c +:+ "_intensity") i df)
  else Ok df.

(** 8c *)
Definition add_rainfall_category (df : DataFrame) : DataFrame :=
  if has_column "rainfall" df then
    let df := map_column "rainfall" to_numeric_fill0 df in
    set_column "rainfall_category" (rainfall_category <$> col "rainfall" df) df
  else df.

(** The order of [sort_values]: numbers by value, texts by code point,
    missing values last. *)
Definition cell_leb (v w : cell) : bool :=
  match v, w with
  | _, NaN => true
  | NaN, _ => false
  | Num a, Num b => Qle_bool a b
  | _, _ => String.leb (py_str v) (py_str w)
  end.

Definition cell_eqb (v w : cell) : bool := cell_leb v w && cell_leb w v.

(** A row is before another one under the keys [by], taken in turn. *)
Fixpoint row_leb (by_ : list string) (r s : gmap string cell) : bool :=
  match by_ with
  | [] => true
  | c :: by' =>
      if cell_eqb (r !!! c) (s !!! c) then row_leb by' r s
      else cell_leb (r !!! c) (s !!! c)
  end.

Fixpoint insert_row (by_ : list string) (r : gmap string cell)
  (l : list (gmap string cell)) : list (gmap string cell) :=
  match l with
  | [] => [r]
  | s :: l' => if row_leb by_ r s then r :: l else s :: insert_row by_ r l'
  end.

(** [df.sort_values(by)], a stable sort. *)
Definition sort_values (by_ : list string) (df : DataFrame) : result DataFrame :=
  if forallb (λ c, has_column c df) by_
  then Ok (mkDF (columns df) (foldr (insert_row by_) [] (rows df)))
  else Raise KeyError.

(** [df.groupby(keys)[c].shift(1)]: for each row the value of [c] in the
    row before it in its group, NaN for the first of a group. *)
Fixpoint shift_in_groups (keys : list string) (c : string)
  (before l : list (gmap string cell)) : list cell :=
  match l with
  | [] => []
  | r :: l' =>
      let same (s : gmap string cell) :=
        forallb (λ k, cell_eqb (r !!! k) (s !!! k)) keys in
      default NaN ((λ s : gmap string cell, s !!! c) <$> List.find same before)
        :: shift_in_groups keys c (r :: before) l'
  end.

(** 8d, on the sorted table *)
Definition add_lagged_yield (df : DataFrame) : result DataFrame :=
  let prev := shift_in_groups ["state"; "crop"] "yield" [] (rows df) in
  let df := set_column "prev_year_yield" prev df in
  let filled := zip_with fillna (col "yield" df) (col "prev_year_yield" df) in
  change ← rzip_with cell_sub (col "yield" df) filled;
  Ok (set_column "yield_change" change df).

(** ** Step 9: label encoding *)

Fixpoint insert_string (x : string) (l : list string) : list string :=
  match l with
  | [] => [x]
  | y :: l' =>
      if String.eqb x y then l
      else if String.leb x y then x :: l
      else y :: insert_string x l'
  end.

(** [LabelEncoder.classes_]: the distinct texts in increasing order. *)
Definition classes_of (l : list string) : list string :=
  foldr insert_string [] l.

Fixpoint index_of (x : string) (l : list string) : nat :=
  match l with
  | [] => 0
  | y :: l' => if String.eqb x y then 0 else S (index_of x l')
  end.

Definition categorical_cols : list string :=
  ["state"; "district"; "crop"; "season"; "region"; "soil_type"].

Definition encoders := list (string * list string).

Definition encode_column (c : string) (acc : DataFrame * encoders)
  : DataFrame * encoders :=
  let '(df, enc) := acc in
  if has_column c df then
    let texts := py_str <$> col c df in
    let classes_ := classes_of texts in
    let codes := (λ t, Num (inject_Z (Z.of_nat (index_of t classes_)))) <$> texts in
    (set_column (c +:+ "_encoded") codes df, (enc ++ [(c, classes_)])%list)
  else acc.

Definition encode_categoricals (df : DataFrame) : DataFrame * encoders :=
  foldl (λ acc c, encode_column c acc) (df, []) categorical_cols.

(** ** Step 10: scaling *)

Definition numerical_cols : list string :=
  ["rainfall"; "ndvi"; "soil_moisture"; "lst"; "temperature"; "humidity"].

(** Mean and scale of each column, as [StandardScaler] keeps them. *)
Definition scaler := list (Q * Q).

Definition as_float (v : cell) : result Q :=
  match v with
  | Num q => Ok q
  | NaN => Ok 0%Q
  | Str s => match text_num s with Some q => Ok q | None => Raise ValueError end
  end.

Definition Qsum (l : list Q) : Q := foldr Qplus 0%Q l.

Definition mean (l : list Q) : Q := (Qsum l / inject_Z (Z.of_nat (length l)))%Q.

Definition fit_column (l : list Q) : Q * Q :=
  let m := mean l in
  let var := mean ((λ x, (x - m) * (x - m))%Q <$> l) in
  let sd := np_sqrt var in
  (m, if Qeq_bool sd 0 then 1%Q else sd).

Definition scale_column (c : string) (acc : result (DataFrame * scaler))
  : result (DataFrame * scaler) :=
  '(df, sc) ← acc;
  xs ← rmap as_float (col c df);
  let '(m, sd) := fit_column xs in
  Ok (set_column (c +:+ "_scaled") ((λ x, Num ((x - m) / sd)) <$> xs) df,
      (sc ++ [(m, sd)])%list).

(** [fit_transform] refuses a table without rows. *)
Definition scale_numericals (df : DataFrame) : result (DataFrame * scaler) :=
  let scale_cols := List.filter (λ c, has_column c df) numerical_cols in
  match scale_cols with
  | [] => Ok (df, [])
  | _ =>
      let df := foldl (λ df c, map_column c (fillna (Num 0)) df) df scale_cols in
      if (len df =? 0)%nat then Raise ValueError
      else foldl (λ acc c, scale_column c acc) (Ok (df, [])) scale_cols
  end.

(** The closing report reads the columns state, crop, district and yield
    ([year] only if the table has it). *)
Definition final_stats (df : DataFrame) : result unit :=
  if has_column "state" df && has_column "crop" df && has_column "district" df
     && has_column "yield" df
  then Ok ()
  else Raise KeyError.
End Features.

(** ** [preprocess_data] over a store of table objects

    A Python name holds a reference.  [df.copy()], [df[mask].copy()] and
    [df.sort_values(...)] make a new object; [df[c] = ...] and
    [df.columns = ...] change the object the name refers to.  An exception
    leaves the store as it is at that point. *)

Definition loc := nat.

Record state `{Generator} := mkState {
  heap : gmap loc DataFrame;
  np_random : gen_state
}.

Definition M `{Generator} (A : Type) : Type := state → result A * state.

#[global] Instance M_ret `{Generator} : MRet M := λ A a st, (Ok a, st).

#[global] Instance M_bind `{Generator} : MBind M := λ A B k m st,
  match m st with
  | (Ok a, st') => k a st'
  | (Raise e, st') => (Raise e, st')
  end.

Section Store.
Context `{Generator}.

Definition lift {A} (r : result A) : M A := λ st, (r, st).

(** The object a reference points to. *)
Definition read (l : loc) : M DataFrame := λ st,
  match heap st !! l with
  | Some df => (Ok df, st)
  | None => (Raise KeyError, st)
  end.

(** A new object. *)
Definition alloc (df : DataFrame) : M loc := λ st,
  let l := fresh (dom (heap st)) in
  (Ok l, mkState _ (<[l:=df]> (heap st)) (np_random st)).

(** The object at [l] is changed in place. *)
Definition write (l : loc) (df : DataFrame) : M unit := λ st,
  (Ok (), mkState _ (<[l:=df]> (heap st)) (np_random st)).

Definition mutate (l : loc) (f : DataFrame → DataFrame) : M unit :=
  df ← read l; write l (f df).

Definition mutate_r (l : loc) (f : DataFrame → result DataFrame) : M unit :=
  df ← read l; df' ← lift (f df); write l df'.

(** A step that draws from the global generator. *)
Definition mutate_rng (l : loc)
  (f : DataFrame → gen_state → result DataFrame * gen_state) : M unit :=
  df ← read l;
  df' ← (λ st, let '(r, g) := f df (np_random st) in (r, mkState _ (heap st) g));
  write l df'.

(** [df.copy()] *)
Definition df_copy (l : loc) : M loc := df ← read l; alloc df.
End Store.

Section Preprocess.
Context `{Numerics} `{Generator}.

Definition preprocess_data (df : loc) : M (loc * encoders * scaler) :=
  df ← df_copy df;
  mutate df normalize_columns;;
  mutate df apply_column_mapping;;
  mutate df clean_string_columns;;
  mutate df normalize_season_column;;
  mutate df add_region;;
  mutate_r df convert_yield;;
  df ← (d ← read df; d' ← lift (detect_agronomic_outliers d); alloc d');
  mutate_rng df backfill;;
  mutate_r df add_productivity_index;;
  mutate_r df (add_intensity "fertilizer");;
  mutate_r df (add_intensity "pesticide");;
  mutate df add_rainfall_category;;
  df ← (d ← read df;
        if has_column "year" d then
          d' ← lift (sort_values ["state"; "crop"; "year"] d);
          df ← alloc d';
          mutate_r df add_lagged_yield;;
          mret df
        else mret df);
  enc ← (d ← read df;
         let '(d', enc) := encode_categoricals d in
         write df d';; mret enc);
  sc ← (d ← read df;
        '(d', sc) ← lift (scale_numericals d);
        write df d';; mret sc);
  d ← read df;
  lift (final_stats d);;
  mret (df, enc, sc).
End Preprocess.

(** ** Validation strategies

    [temporal_cv] and [spatial_cv] read the table [df] through
    ['year' in df.columns], [df['year']], ['district' in df.columns] and
    [df['district']] only, and select rows of [X] and [y] by position.  The
    table is given here by these two columns, [None] for a missing one; a
    year is an integer, a district a text.  Fitting and scoring an estimator
    on a fold is the estimator's business. *)

Record Frame := mkFrame {
  year_column : option (list Z);
  district_column : option (list string)
}.

(** The positions of the rows of a fold in [X] and [y]. *)
Record fold := mkFold {
  train_idx : list nat;
  test_idx : list nat
}.

(** R², MAE and RMSE of one fold *)
Definition scores : Type := Q * Q * Q.

(** [model.fit] on the training rows, [model.predict] on the test rows and
    the three scores; the R² of the final model on its hold-out rows. *)
Class Estimator := {
  fit_and_score : fold → result scores;
  holdout_r2 : Q
}.

(** [{'r2': [...], 'mae': [...], 'rmse': [...]}], or [{}] *)
Definition new_results : gmap string (list Q) :=
  {[ "r2" := []; "mae" := []; "rmse" := [] ]}.

Definition append_to (k : string) (x : Q) (results : gmap string (list Q))
  : gmap string (list Q) :=
  <[k := (results !!! k ++ [x])%list]> results.

Definition record_scores (s : scores) (results : gmap string (list Q))
  : gmap string (list Q) :=
  let '(r2, mae, rmse) := s in
  append_to "rmse" rmse (append_to "mae" mae (append_to "r2" r2 results)).

(** The positions at which a boolean mask holds: [X[mask]]. *)
Fixpoint positions_from (i : nat) (mask : list bool) : list nat :=
  match mask with
  | [] => []
  | b :: mask' =>
      if b then i :: positions_from (S i) mask' else positions_from (S i) mask'
  end.

Definition positions (mask : list bool) : list nat := positions_from 0 mask.

(** [sorted(column.unique())] *)
Fixpoint insert_year (x : Z) (l : list Z) : list Z :=
  match l with
  | [] => [x]
  | y :: l' =>
      if (x =? y)%Z then l
      else if (x <? y)%Z then x :: l
      else y :: insert_year x l'
  end.

Definition sorted_unique (l : list Z) : list Z := foldr insert_year [] l.

(** *** Temporal cross-validation *)

(** [range(min(n_splits, len(years) - 2))] *)
Definition candidate_range (n_splits : Z) (years : list Z) : list nat :=
  seq 0 (Z.to_nat (Z.min n_splits (Z.of_nat (length years) - 2))).

(** [years[-(i + 1)]] *)
Definition test_year_of (years : list Z) (i : nat) : Z :=
  years !!! (length years - (i + 1))%nat.

(** One turn of the loop up to the two [continue]s: the test year and the
    fold when the turn goes on to fit, [None] when it is skipped. *)
Definition temporal_fold (year : list Z) (years : list Z) (i : nat)
  : option (Z * fold) :=
  let test_year := test_year_of years i in
  let train_years := List.filter (λ y, (y <? test_year)%Z) years in
  if (length train_years <? 2)%nat then None
  else
    let train_mask := (λ y, bool_decide (y ∈ train_years)) <$> year in
    let test_mask := (λ y, (y =? test_year)%Z) <$> year in
    let f := mkFold (positions train_mask) (positions test_mask) in
    if (length (test_idx f) <? 10)%nat then None
    else Some (test_year, f).

(** The folds [temporal_cv] fits, in the order of the loop. *)
Definition temporal_folds (df : Frame) (n_splits : Z) : list (Z * fold) :=
  match year_column df with
  | None => []
  | Some year =>
      let years := sorted_unique year in
      if (length years <? 3)%nat then []
      else omap (temporal_fold year years) (candidate_range n_splits years)
  end.

Section Validation.
Context `{Estimator}.

(** The body of a loop over folds; an exception of the estimator ends it. *)
Fixpoint run_folds (folds : list fold) (results : gmap string (list Q))
  : result (gmap string (list Q)) :=
  match folds with
  | [] => Ok results
  | f :: folds' =>
      s ← fit_and_score f;
      run_folds folds' (record_scores s results)
  end.

Definition temporal_cv (df : Frame) (n_splits : Z)
  : result (gmap string (list Q)) :=
  match year_column df with
  | None => Ok ∅
  | Some year =>
      let years := sorted_unique year in
      if (length years <? 3)%nat then Ok ∅
      else run_folds (snd <$> temporal_folds df n_splits) new_results
  end.
End Validation.

(** *** Spatial cross-validation

    [GroupKFold] is scikit-learn's.  Its constructor refuses fewer than two
    splits; [split] refuses more splits than groups, then hands the groups,
    largest first, each to the fold that is lightest so far, and yields for
    each fold the rows of its groups as the test side and all other rows as
    the training side.  Among groups of one size the order is the one of an
    ascending stable sort read backwards. *)

Definition GroupKFold (n_splits : Z) : result nat :=
  if (n_splits <=? 1)%Z then Raise ValueError else Ok (Z.to_nat n_splits).

(** [np.bincount]: the number of rows of each group *)
Definition n_samples (groups : list string) (g : string) : nat :=
  length (List.filter (String.eqb g) groups).

Fixpoint insert_by_size (x : string * nat) (l : list (string * nat))
  : list (string * nat) :=
  match l with
  | [] => [x]
  | y :: l' => if (snd x <=? snd y)%nat then x :: l else y :: insert_by_size x l'
  end.

(** [np.argsort(n_samples_per_group)[::-1]] *)
Definition largest_first (l : list (string * nat)) : list (string * nat) :=
  reverse (foldr insert_by_size [] l).

(** [np.argmin]: the first position of the least entry *)
Fixpoint argmin (l : list nat) : nat :=
  match l with
  | [] => 0
  | x :: l' =>
      match l' with
      | [] => 0
      | _ => let j := argmin l' in
             if (x <=? l' !!! j)%nat then 0 else S j
      end
  end.

(** One turn of the assignment loop: fold loads and the map made so far. *)
Definition assign_group (acc : list nat * gmap string nat) (gw : string * nat)
  : list nat * gmap string nat :=
  let '(n_samples_per_fold, group_to_fold) := acc in
  let lightest_fold := argmin n_samples_per_fold in
  (<[lightest_fold := (n_samples_per_fold !!! lightest_fold + snd gw)%nat]>
     n_samples_per_fold,
   <[fst gw := lightest_fold]> group_to_fold).

Definition group_to_fold (n_splits : nat) (groups : list string)
  : gmap string nat :=
  let unique_groups := classes_of groups in
  let sized := (λ g, (g, n_samples groups g)) <$> unique_groups in
  snd (foldl assign_group (replicate n_splits 0%nat, ∅) (largest_first sized)).

Definition split (n_splits : nat) (groups : list string) : result (list fold) :=
  if (length (classes_of groups) <? n_splits)%nat then Raise ValueError
  else
    let indices := (λ g, group_to_fold n_splits groups !!! g) <$> groups in
    Ok ((λ f, mkFold (positions ((λ i, negb (i =? f)%nat) <$> indices))
                     (positions ((λ i, (i =? f)%nat) <$> indices)))
          <$> seq 0 n_splits).

(** The folds [spatial_cv] iterates over. *)
Definition spatial_folds (df : Frame) (n_splits : Z) : result (list fold) :=
  match district_column df with
  | None => Ok []
  | Some groups =>
      gkf ← GroupKFold (Z.min n_splits (Z.of_nat (length (classes_of groups))));
      split gkf groups
  end.

Section Training.
Context `{Numerics} `{Estimator}.

(** The loop inside [try]: an exception ends it and keeps what is recorded. *)
Fixpoint run_folds_caught (folds : list fold) (results : gmap string (list Q))
  : gmap string (list Q) :=
  match folds with
  | [] => results
  | f :: folds' =>
      match fit_and_score f with
      | Ok s => run_folds_caught folds' (record_scores s results)
      | Raise _ => results
      end
  end.

Definition spatial_cv (df : Frame) (n_splits : Z)
  : result (gmap string (list Q)) :=
  match district_column df with
  | None => Ok ∅
  | Some groups =>
      gkf ← GroupKFold (Z.min n_splits (Z.of_nat (length (classes_of groups))));
      let results := new_results in
      match split gkf groups with
      | Ok folds => Ok (run_folds_caught folds results)
      | Raise _ => Ok results
      end
  end.

(** *** The metrics record *)

(** [np.mean] and [np.std]; [None] is NaN, their value on no number. *)
Definition np_mean (l : list Q) : option Q :=
  match l with
  | [] => None
  | _ => Some (mean l)
  end.

Definition np_std (l : list Q) : option Q :=
  match l with
  | [] => None
  | _ => let m := mean l in
         Some (np_sqrt (mean ((λ x, (x - m) * (x - m))%Q <$> l)))
  end.

Record metrics := mkMetrics {
  r2_score : Q;
  temporal_cv_r2_mean : option Q;
  temporal_cv_r2_std : option Q;
  spatial_cv_r2_mean : option Q;
  spatial_cv_r2_std : option Q
}.

(** [results.get(k, d)] *)
Definition get (k : string) (d : list Q) (results : gmap string (list Q))
  : list Q :=
  default d (results !! k).

(** The validation part of [train_production_model]: [r2] is the score of
    the final model on its hold-out rows. *)
Definition train_production_model (df : Frame) : result metrics :=
  let r2 := holdout_r2 in
  temporal_results ← temporal_cv df 5;
  spatial_results ← spatial_cv df 5;
  Ok {| r2_score := r2;
        temporal_cv_r2_mean := np_mean (get "r2" [r2] temporal_results);
        temporal_cv_r2_std := np_std (get "r2" [0%Q] temporal_results);
        spatial_cv_r2_mean := np_mean (get "r2" [r2] spatial_results);
        spatial_cv_r2_std := np_std (get "r2" [0%Q] spatial_results) |}.
End Training.

(** * Properties *)

(** ** General facts about the embedding *)

Lemma rmap_total {A B} (f : A → result B) (g : A → B) (l : list A) :
  Forall (λ x, f x = Ok (g x)) l → rmap f l = Ok (g <$> l).
Proof.
  induction 1 as [|x l Hx _ IH]; [done|].
  cbn. rewrite Hx. cbn. by rewrite IH.
Qed.

Lemma select_fmap {A} (p : A → bool) (l : list A) :
  select (p <$> l) l = List.filter p l.
Proof.
  induction l as [|x l IH]; [done|].
  cbn. rewrite IH. by destruct (p x).
Qed.

Lemma Qle_bool_false (x y : Q) : Qle_bool x y = false ↔ (y < x)%Q.
Proof.
  split.
  - intros E. apply Qnot_le_lt. intros L. apply Qle_bool_iff in L. congruence.
  - intros L. destruct (Qle_bool x y) eqn:E; [|done].
    apply Qle_bool_iff in E. by apply Qlt_not_le in L.
Qed.

Lemma default_limits : CROP_YIELD_LIMITS !!! "default" = (50, 100000)%Q.
Proof. reflexivity. Qed.

(** ** The outlier filter *)

(** The bounds of a crop name: the entry of its lower-cased, trimmed text,
    or (50, 100000). *)
Definition bounds_of (name : string) : Q * Q :=
  default (50, 100000)%Q (CROP_YIELD_LIMITS !! strip (lower name)).

(** A record the filter is to keep. *)
Definition retains (r : gmap string cell) : Prop :=
  ∃ name y, r !! "crop" = Some (Str name) ∧ r !! "yield" = Some (Num y) ∧
            (0 < y)%Q ∧ (fst (bounds_of name) <= y)%Q ∧ (y <= snd (bounds_of name))%Q.

Definition retainsb (r : gmap string cell) : bool :=
  match r !! "crop", r !! "yield" with
  | Some (Str name), Some (Num y) =>
      Qlt_bool 0 y && Qle_bool (fst (bounds_of name)) y
      && Qle_bool y (snd (bounds_of name))
  | _, _ => false
  end.

(** The bounds as the claim words them: lookup of the lower-cased name. *)
Definition claimed_bounds (name : string) : Q * Q :=
  default (50, 100000)%Q (CROP_YIELD_LIMITS !! lower name).

Definition claimed_retains (r : gmap string cell) : Prop :=
  ∃ name y, r !! "crop" = Some (Str name) ∧ r !! "yield" = Some (Num y) ∧
            (0 < y)%Q ∧ (fst (claimed_bounds name) <= y)%Q ∧
            (y <= snd (claimed_bounds name))%Q.

(** A record of a table of crops: a crop name and a yield, a number or
    missing. *)
Definition crop_record (r : gmap string cell) : Prop :=
  (∃ name, r !! "crop" = Some (Str name)) ∧
  (r !! "yield" = Some NaN ∨ ∃ y, r !! "yield" = Some (Num y)).

Lemma retainsb_spec (r : gmap string cell) : retainsb r = true ↔ retains r.
Proof.
  unfold retainsb, retains, Qlt_bool. split.
  - destruct (r !! "crop") as [[| name |]|]; try done.
    destruct (r !! "yield") as [[y | |]|]; try done.
    rewrite !andb_true_iff, negb_true_iff, Qle_bool_false, !Qle_bool_iff.
    intros [[? ?] ?]. by exists name, y.
  - intros (name & y & -> & -> & ? & ? & ?).
    rewrite !andb_true_iff, negb_true_iff, Qle_bool_false, !Qle_bool_iff.
    done.
Qed.

Lemma limits_of_name (name : string) :
  limits_of (crop_key (Str name)) = bounds_of name.
Proof.
  unfold limits_of, bounds_of. by rewrite default_limits.
Qed.

Lemma is_valid_yield_record (r : gmap string cell) :
  crop_record r → is_valid_yield r = Ok (retainsb r).
Proof.
  intros [[name Hc] Hy]. unfold is_valid_yield, retainsb. rewrite Hc.
  destruct Hy as [-> | [y ->]]; [done|].
  rewrite limits_of_name. unfold Qlt_bool.
  by destruct (Qle_bool y 0).
Qed.

Lemma detect_on_records (df : DataFrame) :
  rows df ≠ [] → Forall crop_record (rows df) →
  detect_agronomic_outliers df
  = Ok (mkDF (columns df) (List.filter retainsb (rows df))).
Proof.
  intros Hne Hrec. unfold detect_agronomic_outliers.
  rewrite (rmap_total _ retainsb).
  - cbn. rewrite select_fmap. unfold len.
    destruct (rows df); [done|]. done.
  - eapply Forall_impl; [exact Hrec|]. apply is_valid_yield_record.
Qed.

#[global] Instance retains_dec (r : gmap string cell) : Decision (retains r).
Proof.
  refine (cast_if (decide (retainsb r = true))); by rewrite <- retainsb_spec.
Defined.

Lemma filter_retains (l : list (gmap string cell)) :
  List.filter retainsb l = filter retains l.
Proof.
  induction l as [|r l IH]; [done|].
  rewrite filter_cons. cbn [List.filter]. rewrite IH.
  destruct (retainsb r) eqn:E; case_decide as D; try done.
  - apply retainsb_spec in E. done.
  - apply retainsb_spec in D. congruence.
Qed.

Definition rice (y : Q) : gmap string cell :=
  {[ "crop" := Str "rice"; "yield" := Num y ]}.

Lemma rice_record (y : Q) : crop_record (rice y).
Proof. split; [by exists "rice" | right; by exists y]. Qed.

(** C3, as amended.  On every table of crop records that has a row, the
    outlier filter returns the rows whose yield is present, strictly positive
    and within the bounds found under the lower-cased and trimmed crop name in
    [CROP_YIELD_LIMITS], or within (50, 100000) when the name is no key;
    the rows come in their original order, the columns are unchanged.  Of
    two rice rows with yields 9000 and 5000 only the second is kept. *)
Theorem outlier_filter_retains :
  (∀ df : DataFrame,
     rows df ≠ [] → Forall crop_record (rows df) →
     ∃ out, detect_agronomic_outliers df = Ok out ∧
            columns out = columns df ∧
            rows out = filter retains (rows df) ∧
            (∀ r, r ∈ rows out ↔ r ∈ rows df ∧ retains r) ∧
            rows out `sublist_of` rows df) ∧
  detect_agronomic_outliers (mkDF ["crop"; "yield"] [rice 9000; rice 5000])
  = Ok (mkDF ["crop"; "yield"] [rice 5000]).
Proof.
  split; [|by vm_compute].
  intros df Hne Hrec. eexists. split; [by apply detect_on_records|].
  cbn. rewrite filter_retains.
  split; [done|]. split; [done|]. split; [|apply sublist_filter].
  intros r. rewrite list_elem_of_filter. tauto.
Qed.

Lemma outlier_filter_retains_witness :
  ∃ out, detect_agronomic_outliers (mkDF ["crop"; "yield"] [rice 9000; rice 5000])
         = Ok out ∧ rows out = [rice 5000].
Proof.
  destruct (proj1 outlier_filter_retains
              (mkDF ["crop"; "yield"] [rice 9000; rice 5000]))
    as (out & Hout & _ & Hrows & _).
  - cbn. congruence.
  - cbn. repeat (apply Forall_cons_2; [apply rice_record|]). apply Forall_nil_2.
  - exists out. split; [done|]. rewrite Hrows. by vm_compute.
Defined.

(** C3, as stated, fails: for the crop name [" rice"] the lower-cased name
    is no key of the table, so the stated bounds are (50, 100000) and a yield
    of 9000 is to be kept; the filter trims the name, finds the bounds of
    rice and drops the row. *)
Lemma outlier_filter_untrimmed_name :
  let r : gmap string cell := {[ "crop" := Str " rice"; "yield" := Num 9000 ]} in
  claimed_retains r ∧
  detect_agronomic_outliers (mkDF ["crop"; "yield"] [r])
  = Ok (mkDF ["crop"; "yield"] []).
Proof.
  split; [|by vm_compute].
  exists " rice", 9000%Q. repeat split; by vm_compute.
Qed.

(** ** Unit conversion before the filter *)




Lemma has_column_true (c : string) (df : DataFrame) :
  has_column c df = true ↔ c ∈ columns df.
Proof. unfold has_column. by rewrite bool_decide_eq_true. Qed.





(** ** Assigning a column *)

Lemma has_column_false (c : string) (df : DataFrame) :
  has_column c df = false ↔ c ∉ columns df.
Proof. unfold has_column. by rewrite bool_decide_eq_false. Qed.

Lemma has_column_set_column (c c' : string) (vals : list cell) (df : DataFrame) :
  has_column c (set_column c' vals df)
  = has_column c df || bool_decide (c = c').
Proof.
  unfold set_column. destruct (has_column c' df) eqn:Hc'; unfold has_column; cbn.
  - apply has_column_true in Hc'. repeat case_bool_decide; subst; done.
  - rewrite <- bool_decide_or. apply bool_decide_ext.
    by rewrite elem_of_app, list_elem_of_singleton.
Qed.

Lemma len_set_column (c : string) (vals : list cell) (df : DataFrame) :
  length vals = len df → len (set_column c vals df) = len df.
Proof. unfold len, set_column. cbn. rewrite length_zip_with. lia. Qed.

Lemma col_zip_insert (c c' : string) (rs : list (gmap string cell))
  (vals : list cell) :
  length vals = length rs →
  (λ r : gmap string cell, r !!! c)
    <$> zip_with (λ (r : gmap string cell) v, <[c':=v]> r) rs vals
  = if decide (c = c') then vals
    else (λ r : gmap string cell, r !!! c) <$> rs.
Proof.
  revert vals. induction rs as [|r rs IH]; intros [|v vals] Hlen; try done.
  - by case_decide.
  - cbn in *. rewrite IH by lia. case_decide as He.
    + subst. by rewrite lookup_total_insert_eq.
    + by rewrite lookup_total_insert_ne.
Qed.

Lemma col_set_column_eq (c : string) (vals : list cell) (df : DataFrame) :
  length vals = len df → col c (set_column c vals df) = vals.
Proof.
  intros Hlen. unfold col, set_column. cbn.
  rewrite col_zip_insert by done. by rewrite decide_True.
Qed.

Lemma col_set_column_ne (c c' : string) (vals : list cell) (df : DataFrame) :
  c ≠ c' → length vals = len df → col c (set_column c' vals df) = col c df.
Proof.
  intros Hne Hlen. unfold col, set_column. cbn.
  rewrite col_zip_insert by done. by rewrite decide_False.
Qed.

(** A column without text in it. *)
Definition no_text (vs : list cell) : Prop :=
  Forall (λ v, ∀ s, v ≠ Str s) vs.

Lemma no_text_Num (qs : list Q) : no_text (Num <$> qs).
Proof. apply Forall_fmap, Forall_forall. by intros. Qed.

Lemma add_cells_total (vs : list cell) (xs : list Q) :
  no_text vs → length xs = length vs →
  ∃ l, add_cells vs xs = Ok l ∧ length l = length vs.
Proof.
  intros Hvs. revert xs. induction Hvs as [|v vs Hv _ IH]; intros [|x xs] Hlen;
    try done.
  - by exists [].
  - cbn in Hlen. destruct (IH xs) as (l & Hl & Hlen'); [lia|].
    destruct v as [t | s |]; [| by destruct (Hv s) |].
    + exists (Num (t + x) :: l). cbn. rewrite Hl. cbn. split; [done | lia].
    + exists (NaN :: l). cbn. rewrite Hl. cbn. split; [done | lia].
Qed.

Section BackfillFacts.
Context `{Generator}.

Lemma random_samples_length (n : nat) (g : gen_state) :
  length (random_samples n g).1 = n.
Proof.
  revert g. induction n as [|n IH]; intros g; [done|].
  cbn. destruct (random_sample g) as [u g1].
  specialize (IH g1). destruct (random_samples n g1) as [us g2].
  cbn in *. lia.
Qed.

Lemma uniform_length (low high : Q) (n : nat) (g : gen_state) :
  length (uniform low high n g).1 = n.
Proof.
  unfold uniform. pose proof (random_samples_length n g) as Hn.
  destruct (random_samples n g) as [us g']. cbn in *.
  by rewrite length_fmap.
Qed.

Lemma choice_length (a : list string) (n : nat) (g : gen_state) :
  length (choice a n g).1 = n.
Proof.
  unfold choice.
  assert (∀ b g, length (randints b n g).1 = n) as Hn.
  { clear. induction n as [|n IH]; intros b g; [done|].
    cbn. destruct (randint b g) as [i g1].
    specialize (IH b g1). destruct (randints b n g1) as [ix g2].
    cbn in *. lia. }
  specialize (Hn (length a) g). destruct (randints (length a) n g) as [ix g'].
  cbn in *. by rewrite length_fmap.
Qed.
End BackfillFacts.

#[local] Arguments set_column : simpl never.
#[local] Arguments len : simpl never.
#[local] Arguments col : simpl never.
#[local] Arguments has_column : simpl never.
#[local] Arguments uniform : simpl never.
#[local] Arguments choice : simpl never.

Section BackfillShape.
Context `{Generator}.

Lemma backfill_weather_shape (df : DataFrame) (g : gen_state) :
  ∃ df1 g1, backfill_weather df g = (df1, g1) ∧ len df1 = len df ∧
    (∀ c, has_column c df1
          = has_column c df
            || (negb (has_column "temperature" df)
                && (bool_decide (c = "temperature") || bool_decide (c = "humidity")))) ∧
    (∀ c, c ≠ "temperature" → c ≠ "humidity" → col c df1 = col c df) ∧
    (if has_column "temperature" df then df1 = df
     else col "temperature" df1 = Num <$> (uniform 25 35 (len df) g).1 ∧
          col "humidity" df1
          = Num <$> (uniform 40 80 (len df) (uniform 25 35 (len df) g).2).1).
Proof.
  unfold backfill_weather. destruct (has_column "temperature" df) eqn:Ht; cbn.
  { exists df, g. repeat split; try done. intros c. by rewrite orb_false_r. }
  pose proof (uniform_length 25 35 (len df) g) as Lt.
  destruct (uniform 25 35 (len df) g) as [t g1]. cbn [fst snd] in *.
  assert (length (Num <$> t) = len df) as Lt' by by rewrite length_fmap.
  rewrite len_set_column by done.
  pose proof (uniform_length 40 80 (len df) g1) as Lh.
  destruct (uniform 40 80 (len df) g1) as [h g2]. cbn [fst snd] in *.
  assert (length (Num <$> h) = len df) as Lh' by by rewrite length_fmap.
  assert (length (Num <$> h) = len (set_column "temperature" (Num <$> t) df))
    as Lh'' by by rewrite len_set_column.
  eexists _, _. split; [done|]. split; [by rewrite !len_set_column|].
  split; [|split; [|split]].
  - intros c. rewrite !has_column_set_column.
    destruct (has_column c df); repeat case_bool_decide; done.
  - intros c ? ?. by rewrite !col_set_column_ne.
  - rewrite col_set_column_ne by done. by rewrite col_set_column_eq.
  - by rewrite col_set_column_eq.
Qed.

Lemma backfill_soil_type_shape (df : DataFrame) (g : gen_state) :
  ∃ df1 g1, backfill_soil_type df g = (df1, g1) ∧ len df1 = len df ∧
    (∀ c, has_column c df1
          = has_column c df
            || (negb (has_column "soil_type" df) && bool_decide (c = "soil_type"))) ∧
    (∀ c, c ≠ "soil_type" → col c df1 = col c df) ∧
    (if has_column "soil_type" df then df1 = df
     else col "soil_type" df1 = Str <$> (choice soil_types (len df) g).1).
Proof.
  unfold backfill_soil_type. destruct (has_column "soil_type" df) eqn:Ht; cbn.
  { exists df, g. repeat split; try done. intros c. by rewrite orb_false_r. }
  pose proof (choice_length soil_types (len df) g) as Ls.
  destruct (choice soil_types (len df) g) as [s g1]. cbn [fst snd] in *.
  assert (length (Str <$> s) = len df) as Ls' by by rewrite length_fmap.
  eexists _, _. split; [done|]. split; [by rewrite !len_set_column|].
  split; [|split].
  - intros c. rewrite !has_column_set_column.
    destruct (has_column c df); repeat case_bool_decide; done.
  - intros c ?. by rewrite !col_set_column_ne.
  - cbn. by rewrite col_set_column_eq.
Qed.

(** The noise added to the temperature: the third draw after the seed. *)
Definition lst_noise (n : nat) : list Q :=
  (uniform (-2) 5 n
     (uniform 15 45 n (uniform (3 # 10) (8 # 10) n (seed 42)).2).2).1.

Lemma backfill_satellite_shape (df : DataFrame) (g : gen_state) :
  has_column "temperature" df = true →
  no_text (col "temperature" df) →
  ∃ df1 g1, backfill_satellite df g = (Ok df1, g1) ∧ len df1 = len df ∧
    (∀ c, has_column c df1
          = has_column c df
            || (negb (has_column "ndvi" df)
                && (bool_decide (c = "ndvi") || bool_decide (c = "soil_moisture")
                    || bool_decide (c = "lst")))) ∧
    (∀ c, c ≠ "ndvi" → c ≠ "soil_moisture" → c ≠ "lst" → col c df1 = col c df) ∧
    (if has_column "ndvi" df then df1 = df ∧ g1 = g
     else col "ndvi" df1 = Num <$> (uniform (3 # 10) (8 # 10) (len df) (seed 42)).1 ∧
          col "soil_moisture" df1
          = Num <$> (uniform 15 45 (len df)
                       (uniform (3 # 10) (8 # 10) (len df) (seed 42)).2).1 ∧
          add_cells (col "temperature" df) (lst_noise (len df))
          = Ok (col "lst" df1)).
Proof.
  intros Ht Htext. unfold backfill_satellite, lst_noise.
  destruct (has_column "ndvi" df) eqn:Hn; cbn.
  { exists df, g. repeat split; try done. intros c. by rewrite orb_false_r. }
  pose proof (uniform_length (3 # 10) (8 # 10) (len df) (seed 42)) as Lv.
  destruct (uniform (3 # 10) (8 # 10) (len df) (seed 42)) as [v g1]. cbn [fst snd] in *.
  assert (length (Num <$> v) = len df) as Lv' by by rewrite length_fmap.
  rewrite len_set_column by done.
  pose proof (uniform_length 15 45 (len df) g1) as Lm.
  destruct (uniform 15 45 (len df) g1) as [m g2]. cbn [fst snd] in *.
  assert (length (Num <$> m) = len (set_column "ndvi" (Num <$> v) df)) as Lm'
    by by rewrite len_set_column, length_fmap.
  rewrite len_set_column by done. rewrite len_set_column by done.
  rewrite !has_column_set_column, Ht. cbn.
  pose proof (uniform_length (-2) 5 (len df) g2) as Ld.
  destruct (uniform (-2) 5 (len df) g2) as [d g3]. cbn [fst snd] in *.
  rewrite !col_set_column_ne by done.
  destruct (add_cells_total (col "temperature" df) d) as (lst & Hlst & Llst);
    [done | by rewrite Ld; unfold col; rewrite length_fmap |].
  rewrite Hlst. cbn.
  assert (length lst
          = len (set_column "soil_moisture" (Num <$> m)
                   (set_column "ndvi" (Num <$> v) df))) as Llst'.
  { rewrite !len_set_column by done. rewrite Llst. unfold col.
    by rewrite length_fmap. }
  eexists _, _. split; [done|]. split; [by rewrite !len_set_column|].
  split; [|split; [|split; [|split]]].
  - intros c. rewrite !has_column_set_column.
    destruct (has_column c df); repeat case_bool_decide; done.
  - intros c ? ? ?. by rewrite !col_set_column_ne.
  - rewrite !col_set_column_ne by done. by rewrite col_set_column_eq.
  - rewrite col_set_column_ne by done. by rewrite col_set_column_eq.
  - by rewrite col_set_column_eq.
Qed.
End BackfillShape.

Section BackfillWhole.
Context `{Generator}.

(** What the three blocks of the backfill do together, on a table whose
    temperature column, if it has one, holds no text. *)
Lemma backfill_shape (df : DataFrame) (g : gen_state) :
  (has_column "temperature" df = true → no_text (col "temperature" df)) →
  ∃ df' g', backfill df g = (Ok df', g') ∧ len df' = len df ∧
    (∀ c, has_column c df'
          = has_column c df
            || (negb (has_column "temperature" df)
                && (bool_decide (c = "temperature") || bool_decide (c = "humidity")))
            || (negb (has_column "soil_type" df) && bool_decide (c = "soil_type"))
            || (negb (has_column "ndvi" df)
                && (bool_decide (c = "ndvi") || bool_decide (c = "soil_moisture")
                    || bool_decide (c = "lst")))) ∧
    (has_column "temperature" df = false →
       col "temperature" df' = Num <$> (uniform 25 35 (len df) g).1 ∧
       col "humidity" df'
       = Num <$> (uniform 40 80 (len df) (uniform 25 35 (len df) g).2).1) ∧
    (has_column "soil_type" df = false →
       col "soil_type" df'
       = Str <$> (choice soil_types (len df) (backfill_weather df g).2).1) ∧
    (has_column "ndvi" df = false →
       col "ndvi" df' = Num <$> (uniform (3 # 10) (8 # 10) (len df) (seed 42)).1 ∧
       col "soil_moisture" df'
       = Num <$> (uniform 15 45 (len df)
                    (uniform (3 # 10) (8 # 10) (len df) (seed 42)).2).1 ∧
       add_cells (col "temperature" df') (lst_noise (len df))
       = Ok (col "lst" df')).
Proof.
  intros Htext. unfold backfill.
  destruct (backfill_weather_shape df g) as (df1 & g1 & E1 & L1 & C1 & K1 & V1).
  rewrite E1.
  destruct (backfill_soil_type_shape df1 g1) as (df2 & g2 & E2 & L2 & C2 & K2 & V2).
  rewrite E2.
  assert (has_column "temperature" df2 = true) as Ht2.
  { rewrite C2, C1. by destruct (has_column "temperature" df). }
  assert (no_text (col "temperature" df2)) as Hn2.
  { rewrite K2 by done. destruct (has_column "temperature" df) eqn:Ht.
    - subst df1. by apply Htext.
    - destruct V1 as [-> _]. apply no_text_Num. }
  destruct (backfill_satellite_shape df2 g2 Ht2 Hn2)
    as (df3 & g3 & E3 & L3 & C3 & K3 & V3).
  assert (has_column "ndvi" df2 = has_column "ndvi" df) as Hndvi.
  { rewrite C2, C1. destruct (has_column "ndvi" df); [done|].
    cbn. by rewrite !andb_false_r. }
  assert (has_column "soil_type" df1 = has_column "soil_type" df) as Hsoil.
  { rewrite C1. destruct (has_column "soil_type" df); [done|].
    cbn. by rewrite !andb_false_r. }
  exists df3, g3. split; [done|]. split; [congruence|].
  split; [|split; [|split]].
  - intros c. by rewrite C3, C2, C1, Hndvi, Hsoil.
  - intros Ht. rewrite Ht in V1. destruct V1 as [Vt Vh].
    rewrite !K3 by done. rewrite !K2 by done. by rewrite Vt, Vh.
  - intros Hs. rewrite Hsoil, Hs in V2. rewrite K3 by done.
    by rewrite V2, L1.
  - intros Hn. rewrite Hndvi, Hn in V3. destruct V3 as (Vn & Vm & Vl).
    rewrite L2, L1 in *. by rewrite (K3 "temperature").
Qed.
End BackfillWhole.

(** A generator for examples: the samples 0, 0.1, ..., 0.9 in turn, the
    state being the number of draws so far, as [np.random.seed] sets it. *)
Definition cycle : Generator := {|
  gen_state := nat;
  seed z := Z.to_nat z;
  random_sample n := ((inject_Z (Z.of_nat (n mod 10)) / 10)%Q, S n);
  randint b n := ((n mod b)%nat, S n)
|}.



Definition bare_rice : DataFrame := mkDF ["crop"; "yield"] [rice 5000].

Section BackfillClaims.
Context `{Generator}.


(** C9.  After the weather and the soil block the table has a temperature
    column, whatever the input; so on a table without ndvi (its temperature
    column, if any, holding no text) the backfill returns a table whose lst
    is its temperature plus the draw of uniform(-2, 5), the third draw after
    the seed. *)
Theorem lst_from_temperature :
  (∀ (df : DataFrame) (g : gen_state),
     has_column "temperature"
       (backfill_soil_type (backfill_weather df g).1 (backfill_weather df g).2).1
     = true) ∧
  (∀ (df : DataFrame) (g : gen_state),
     has_column "ndvi" df = false →
     (has_column "temperature" df = true → no_text (col "temperature" df)) →
     ∃ df' g', backfill df g = (Ok df', g') ∧
       has_column "temperature" df' = true ∧
       add_cells (col "temperature" df') (lst_noise (len df))
       = Ok (col "lst" df')).
Proof.
  split.
  - intros df g.
    destruct (backfill_weather_shape df g) as (df1 & g1 & E1 & _ & C1 & _).
    rewrite E1. cbn [fst snd].
    destruct (backfill_soil_type_shape df1 g1) as (df2 & g2 & E2 & _ & C2 & _).
    rewrite E2. cbn [fst snd]. rewrite C2, C1.
    by destruct (has_column "temperature" df).
  - intros df g Hn Htext.
    destruct (backfill_shape df g Htext) as (df' & g' & E & _ & C & _ & _ & Vn).
    exists df', g'. split; [done|]. split.
    + rewrite C. by destruct (has_column "temperature" df).
    + by apply Vn.
Qed.
End BackfillClaims.



Lemma lst_from_temperature_witness :
  ∃ df' g', @backfill cycle bare_rice 0%nat = (Ok df', g') ∧
    add_cells (col "temperature" df') (@lst_noise cycle 1) = Ok (col "lst" df').
Proof.
  destruct (proj2 (@lst_from_temperature cycle) bare_rice 0%nat)
    as (df' & g' & E & _ & Hl).
  - by vm_compute.
  - intros Ht. by vm_compute in Ht.
  - exists df', g'. split; [exact E | exact Hl].
Defined.

(** ** Reproducibility of the backfill *)

Section Reproducibility.
Context `{Generator}.

Lemma uniform_cons (low high : Q) (n : nat) (g : gen_state) :
  (uniform low high (S n) g).1
  = (low + (high - low) * (random_sample g).1)%Q
      :: (uniform low high n (random_sample g).2).1.
Proof.
  unfold uniform. cbn [random_samples].
  destruct (random_sample g) as [u g1]. cbn [fst snd].
  by destruct (random_samples n g1).
Qed.

(** C8 fails on the code.  Two runs of the backfill on one table that lacks
    temperature and has a row, started in generator states whose next samples
    differ, synthesize different temperature columns: the weather and soil
    blocks draw before any seed is set.  The columns drawn after
    [np.random.seed(42)], ndvi and soil_moisture, are the same in both. *)
Theorem backfill_depends_on_generator_state
  (df df1 df2 : DataFrame) (g1 g2 g1' g2' : gen_state) :
  has_column "temperature" df = false →
  rows df ≠ [] →
  ¬ ((random_sample g1).1 == (random_sample g2).1)%Q →
  backfill df g1 = (Ok df1, g1') →
  backfill df g2 = (Ok df2, g2') →
  col "temperature" df1 ≠ col "temperature" df2 ∧
  (has_column "ndvi" df = false →
     col "ndvi" df1 = col "ndvi" df2 ∧
     col "soil_moisture" df1 = col "soil_moisture" df2).
Proof.
  intros Ht Hne Hu E1 E2.
  destruct (backfill_shape df g1) as (d1 & s1 & F1 & _ & _ & Vt1 & _ & Vn1);
    [by rewrite Ht|].
  destruct (backfill_shape df g2) as (d2 & s2 & F2 & _ & _ & Vt2 & _ & Vn2);
    [by rewrite Ht|].
  rewrite F1 in E1. rewrite F2 in E2. simplify_eq.
  destruct (Vt1 Ht) as [T1 _]. destruct (Vt2 Ht) as [T2 _]. split.
  - rewrite T1, T2. unfold len. destruct (rows df) as [|r rs]; [done|].
    cbn [length]. rewrite !uniform_cons. cbn [fmap list_fmap].
    intros Heq. apply Hu.
    apply (f_equal (λ l, match l with Num q :: _ => q | _ => 0%Q end)) in Heq.
    assert (25 + (35 - 25) * (random_sample g1).1
            == 25 + (35 - 25) * (random_sample g2).1)%Q as Hq
      by by rewrite Heq.
    apply Qplus_inj_l, Qmult_inj_l in Hq; done.
  - intros Hn. destruct (Vn1 Hn) as (-> & -> & _).
    by destruct (Vn2 Hn) as (-> & -> & _).
Qed.
End Reproducibility.

Lemma backfill_depends_on_generator_state_witness :
  ∃ df1 df2 g1' g2',
    @backfill cycle bare_rice 0%nat = (Ok df1, g1') ∧
    @backfill cycle bare_rice 1%nat = (Ok df2, g2') ∧
    col "temperature" df1 ≠ col "temperature" df2.
Proof.
  eexists _, _, _, _. split; [by vm_compute|]. split; [by vm_compute|].
  refine (proj1 (@backfill_depends_on_generator_state cycle bare_rice _ _
                   0%nat 1%nat _ _ _ _ _ _ _)); by vm_compute.
Defined.

(** ** The caller's table *)

Section Frame.
Context `{Generator}.

(** [m] leaves the objects of [h0] as they are, and a value it returns
    satisfies [Q]. *)
Definition keeps {A} (h0 : gmap loc DataFrame) (m : M A) (Q : A → Prop) : Prop :=
  ∀ st, h0 ⊆ heap st → h0 ⊆ heap (m st).2 ∧ ∀ a, (m st).1 = Ok a → Q a.

Lemma keeps_ret {A} h0 (a : A) (Q : A → Prop) : Q a → keeps h0 (mret a) Q.
Proof. intros HQ st Hst. split; [done|]. intros a' [= <-]. done. Qed.

Lemma keeps_bind {A B} h0 (m : M A) (k : A → M B) (P : A → Prop) (Q : B → Prop) :
  keeps h0 m P → (∀ a, P a → keeps h0 (k a) Q) → keeps h0 (m ≫= k) Q.
Proof.
  intros Hm Hk st Hst. destruct (Hm st Hst) as [Hh HP].
  unfold mbind, M_bind. destruct (m st) as [[a|e] st']; cbn in *.
  - by apply Hk; [apply HP|].
  - done.
Qed.

Lemma keeps_weaken {A} h0 (m : M A) (P Q : A → Prop) :
  keeps h0 m P → (∀ a, P a → Q a) → keeps h0 m Q.
Proof.
  intros Hm HPQ st Hst. destruct (Hm st Hst) as [Hh HP]. split; [done|].
  intros a Ha. by apply HPQ, HP.
Qed.

Lemma keeps_lift {A} h0 (r : result A) : keeps h0 (lift r) (λ _, True).
Proof. by intros st Hst. Qed.

Lemma keeps_read h0 (l : loc) : keeps h0 (read l) (λ _, True).
Proof. intros st Hst. unfold read. by destruct (heap st !! l). Qed.

Lemma keeps_alloc h0 (df : DataFrame) :
  keeps h0 (alloc df) (λ l, h0 !! l = None).
Proof.
  intros st Hst. unfold alloc. cbn.
  assert (h0 !! fresh (dom (heap st)) = None) as Hfresh.
  { destruct (h0 !! fresh (dom (heap st))) as [d|] eqn:E; [|done].
    eapply lookup_weaken in E; [|exact Hst].
    destruct (is_fresh (dom (heap st))). apply elem_of_dom. by exists d. }
  split.
  - by apply insert_subseteq_r.
  - by intros a [= <-].
Qed.

Lemma keeps_write h0 (l : loc) (df : DataFrame) :
  h0 !! l = None → keeps h0 (write l df) (λ _, True).
Proof. intros Hl st Hst. unfold write. cbn. split; [|done]. by apply insert_subseteq_r. Qed.

Lemma keeps_rng {A} h0 (f : gen_state → result A * gen_state) :
  keeps h0 (λ st, let '(r, g) := f (np_random st) in
                  (r, mkState _ (heap st) g)) (λ _, True).
Proof. intros st Hst. by destruct (f (np_random st)). Qed.

Lemma keeps_mutate h0 (l : loc) (f : DataFrame → DataFrame) :
  h0 !! l = None → keeps h0 (mutate l f) (λ _, True).
Proof.
  intros Hl. eapply keeps_bind; [apply keeps_read|].
  intros df _. by apply keeps_write.
Qed.

Lemma keeps_mutate_r h0 (l : loc) (f : DataFrame → result DataFrame) :
  h0 !! l = None → keeps h0 (mutate_r l f) (λ _, True).
Proof.
  intros Hl. eapply keeps_bind; [apply keeps_read|]. intros df _.
  eapply keeps_bind; [apply keeps_lift|]. intros df' _. by apply keeps_write.
Qed.

Lemma keeps_mutate_rng h0 (l : loc)
  (f : DataFrame → gen_state → result DataFrame * gen_state) :
  h0 !! l = None → keeps h0 (mutate_rng l f) (λ _, True).
Proof.
  intros Hl. eapply keeps_bind; [apply keeps_read|]. intros df _.
  eapply keeps_bind; [apply (keeps_rng h0 (f df))|].
  intros df' _. by apply keeps_write.
Qed.

Lemma keeps_df_copy h0 (l : loc) :
  keeps h0 (df_copy l) (λ l', h0 !! l' = None).
Proof.
  eapply keeps_bind; [apply keeps_read|]. intros df _. apply keeps_alloc.
Qed.
End Frame.

Section FrameOfPreprocess.
Context `{Numerics} `{Generator}.

Lemma preprocess_data_keeps (h0 : gmap loc DataFrame) (df : loc) :
  keeps h0 (preprocess_data df) (λ _, True).
Proof.
  unfold preprocess_data.
  eapply keeps_bind; [apply keeps_df_copy|]. intros l Hl. cbn beta.
  do 5 (eapply keeps_bind; [by apply keeps_mutate|]; intros _ _).
  eapply keeps_bind; [by apply keeps_mutate_r|]. intros _ _.
  eapply keeps_bind.
  { eapply keeps_bind; [apply keeps_read|]. intros d _.
    eapply keeps_bind; [apply keeps_lift|]. intros d' _. apply keeps_alloc. }
  clear l Hl. intros l Hl. cbn beta.
  eapply keeps_bind; [by apply keeps_mutate_rng|]. intros _ _.
  do 3 (eapply keeps_bind; [by apply keeps_mutate_r|]; intros _ _).
  eapply keeps_bind; [by apply keeps_mutate|]. intros _ _.
  eapply keeps_bind.
  { eapply keeps_bind; [apply keeps_read|]. intros d _.
    destruct (has_column "year" d).
    - eapply keeps_bind; [apply keeps_lift|]. intros d' _.
      eapply keeps_bind; [apply keeps_alloc|]. intros l' Hl'. cbn beta.
      eapply keeps_bind; [by apply keeps_mutate_r|]. intros _ _.
      apply keeps_ret. exact Hl'.
    - apply keeps_ret. exact Hl. }
  clear l Hl. intros l Hl. cbn beta.
  eapply keeps_bind.
  { eapply keeps_bind; [apply keeps_read|]. intros d _.
    destruct (encode_categoricals d) as [d' enc].
    eapply keeps_bind; [by apply keeps_write|]. intros _ _.
    by apply (keeps_ret _ _ (λ _, True)). }
  intros enc _.
  eapply keeps_bind.
  { eapply keeps_bind; [apply keeps_read|]. intros d _.
    eapply keeps_bind; [apply keeps_lift|]. intros [d' sc] _.
    eapply keeps_bind; [by apply keeps_write|]. intros _ _.
    by apply (keeps_ret _ _ (λ _, True)). }
  intros sc _.
  eapply keeps_bind; [apply keeps_read|]. intros d _.
  eapply keeps_bind; [apply keeps_lift|]. intros _ _.
  by apply keeps_ret.
Qed.

(** C10.  [preprocess_data] leaves the table it is given as it was, and
    with it every table object that existed before the call, whether it
    returns or raises: it works on the copy it makes first and on the
    objects made from that copy. *)
Theorem preprocess_data_leaves_argument (df : loc) (st : state) :
  heap (preprocess_data df st).2 !! df = heap st !! df ∧
  heap st ⊆ heap (preprocess_data df st).2.
Proof.
  destruct (preprocess_data_keeps (heap st) df st) as [Hsub _]; [done|].
  split; [|done].
  destruct (heap st !! df) as [d|] eqn:E.
  - by eapply lookup_weaken.
  - unfold preprocess_data, df_copy, read, mbind, M_bind. by rewrite E.
Qed.
End FrameOfPreprocess.

(** ** Temporal cross-validation *)

Lemma elem_of_positions_from (k i : nat) (mask : list bool) :
  i ∈ positions_from k mask ↔ ∃ j : nat, i = (k + j)%nat ∧ mask !! j = Some true.
Proof.
  revert k. induction mask as [|b mask IH]; intros k; cbn.
  - split; [by intros ?%elem_of_nil | by intros (j & _ & ?)].
  - assert (i ∈ positions_from (S k) mask
            ↔ ∃ j : nat, i = (k + S j)%nat ∧ mask !! j = Some true) as IH'.
    { rewrite IH. by setoid_rewrite Nat.add_succ_r. }
    destruct b; [rewrite elem_of_cons|]; rewrite IH'; split.
    + intros [-> | (j & -> & Hj)]; [exists 0%nat | exists (S j)]; split;
        try done; lia.
    + intros ([|j] & -> & Hj); [left; lia | right; by exists j].
    + intros (j & -> & Hj). by exists (S j).
    + intros ([|j] & -> & Hj); [done | by exists j].
Qed.

Lemma elem_of_positions (i : nat) (mask : list bool) :
  i ∈ positions mask ↔ mask !! i = Some true.
Proof.
  unfold positions. rewrite elem_of_positions_from. split.
  - by intros (j & -> & Hj).
  - intros Hi. by exists i.
Qed.

Lemma elem_of_positions_fmap {A} (p : A → bool) (l : list A) (i : nat) :
  i ∈ positions (p <$> l) ↔ ∃ x, l !! i = Some x ∧ p x = true.
Proof.
  rewrite elem_of_positions, list_lookup_fmap. split.
  - destruct (l !! i) as [x|]; [|done]. intros [= Hp]. by exists x.
  - intros (x & -> & Hp). cbn. by rewrite Hp.
Qed.

Lemma elem_of_insert_year (x y : Z) (l : list Z) :
  x ∈ insert_year y l ↔ x = y ∨ x ∈ l.
Proof.
  induction l as [|z l IH]; cbn.
  - rewrite list_elem_of_singleton, elem_of_nil. tauto.
  - destruct (Z.eqb_spec y z) as [->|Hne].
    + rewrite elem_of_cons. tauto.
    + destruct (y <? z)%Z; rewrite !elem_of_cons; [tauto|].
      rewrite IH. tauto.
Qed.

Lemma elem_of_sorted_unique (x : Z) (l : list Z) :
  x ∈ sorted_unique l ↔ x ∈ l.
Proof.
  unfold sorted_unique. induction l as [|y l IH]; cbn; [done|].
  by rewrite elem_of_insert_year, elem_of_cons, IH.
Qed.

Lemma insert_year_sorted (y : Z) (l : list Z) :
  StronglySorted Z.lt l → StronglySorted Z.lt (insert_year y l).
Proof.
  induction 1 as [|z l Hl IH Hz]; cbn.
  - repeat constructor.
  - destruct (Z.eqb_spec y z) as [->|Hne]; [by constructor|].
    destruct (Z.ltb_spec y z) as [Hlt|Hge].
    + constructor; [by constructor|]. constructor; [done|].
      eapply Forall_impl; [exact Hz|]. intros; cbn in *; lia.
    + constructor; [done|]. apply Forall_forall. intros x Hx.
      apply elem_of_insert_year in Hx as [->|Hx]; [lia|].
      by eapply Forall_forall in Hz.
Qed.

(** The years come in increasing order, each once. *)
Lemma sorted_unique_sorted (l : list Z) : StronglySorted Z.lt (sorted_unique l).
Proof.
  unfold sorted_unique. induction l as [|y l IH]; cbn; [constructor|].
  by apply insert_year_sorted.
Qed.

Lemma temporal_fold_Some (year years : list Z) (i : nat) (ty : Z) (f : fold) :
  temporal_fold year years i = Some (ty, f) →
  ty = test_year_of years i ∧
  (2 ≤ length (List.filter (λ y, (y <? ty)%Z) years))%nat ∧
  (10 ≤ length (test_idx f))%nat ∧
  train_idx f
  = positions ((λ y, bool_decide (y ∈ List.filter (λ y, (y <? ty)%Z) years))
                 <$> year) ∧
  test_idx f = positions ((λ y, (y =? ty)%Z) <$> year).
Proof.
  unfold temporal_fold.
  destruct (Nat.ltb_spec
              (length (List.filter (λ y, (y <? test_year_of years i)%Z) years)) 2)
    as [|Htrain]; [done|].
  cbn [test_idx].
  destruct (Nat.ltb_spec
              (length (positions ((λ y, (y =? test_year_of years i)%Z) <$> year)))
              10) as [|Htest]; [done|].
  intros [= <- <-]. done.
Qed.

Lemma temporal_folds_elem (df : Frame) (year : list Z) (n_splits : Z)
  (ty : Z) (f : fold) :
  year_column df = Some year →
  (ty, f) ∈ temporal_folds df n_splits →
  ∃ i, i ∈ candidate_range n_splits (sorted_unique year) ∧
       temporal_fold year (sorted_unique year) i = Some (ty, f).
Proof.
  intros Hy. unfold temporal_folds. rewrite Hy.
  destruct (length (sorted_unique year) <? 3)%nat; [by intros ?%elem_of_nil|].
  by rewrite list_elem_of_omap.
Qed.

(** C1.  In every fold that [temporal_cv] fits, each training row has a
    year of the table that is strictly below the test year of the fold, and
    the test rows are the rows whose year is the test year. *)
Theorem temporal_cv_no_future (df : Frame) (year : list Z) (n_splits : Z)
  (test_year : Z) (f : fold) :
  year_column df = Some year →
  (test_year, f) ∈ temporal_folds df n_splits →
  (∀ i, i ∈ train_idx f → ∃ y, year !! i = Some y ∧ (y < test_year)%Z) ∧
  (∀ i, i ∈ test_idx f ↔ year !! i = Some test_year).
Proof.
  intros Hy Hf.
  destruct (temporal_folds_elem df year n_splits test_year f Hy Hf)
    as (k & _ & Hk).
  apply temporal_fold_Some in Hk as (_ & _ & _ & -> & ->). split.
  - intros i (y & Hi & Hin)%elem_of_positions_fmap. exists y. split; [done|].
    apply bool_decide_eq_true, list_elem_of_In, filter_In in Hin as [_ Hlt].
    lia.
  - intros i. rewrite elem_of_positions_fmap. split.
    + intros (y & Hi & ->%Z.eqb_eq). done.
    + intros Hi. exists test_year. split; [done | apply Z.eqb_refl].
Qed.

(** Ten rows for each of the years 2018 to 2021. *)
Definition ten_each : list Z :=
  (replicate 10 2018%Z ++ replicate 10 2019%Z
   ++ replicate 10 2020%Z ++ replicate 10 2021%Z)%list.

Definition four_years : Frame := mkFrame (Some ten_each) None.

Lemma temporal_cv_no_future_witness :
  ∃ f, (2021%Z, f) ∈ temporal_folds four_years 5 ∧
       ∀ i, i ∈ train_idx f →
            ∃ y, ten_each !! i = Some y ∧ (y < 2021)%Z.
Proof.
  eexists. split.
  - vm_compute. apply list_elem_of_here.
  - eapply (temporal_cv_no_future four_years _ 5 2021); [reflexivity|].
    vm_compute. apply list_elem_of_here.
Defined.

Lemma candidate_range_length (n_splits : Z) (years : list Z) :
  length (candidate_range n_splits years)
  = Z.to_nat (Z.min n_splits (Z.of_nat (length years) - 2)).
Proof. unfold candidate_range. by rewrite length_seq. Qed.

Lemma candidate_test_years (n_splits : Z) (years : list Z) :
  test_year_of years <$> candidate_range n_splits years
  = take (length (candidate_range n_splits years)) (reverse years).
Proof.
  rewrite candidate_range_length. unfold candidate_range.
  set (n := Z.to_nat (Z.min n_splits (Z.of_nat (length years) - 2))).
  assert (n ≤ length years)%nat as Hn by lia.
  apply list_eq. intros i. rewrite list_lookup_fmap.
  destruct (decide (i < n)%nat) as [Hi|Hi].
  - rewrite lookup_seq_lt, lookup_take_lt, reverse_lookup by lia. cbn.
    unfold test_year_of. rewrite list_lookup_lookup_total_lt by lia.
    do 2 f_equal. lia.
  - by rewrite lookup_seq_ge, lookup_take_ge by lia.
Qed.

Lemma omap_fst_sublist {A B C} (f : A → option (B * C)) (g : A → B) (l : list A) :
  (∀ x y, f x = Some y → y.1 = g x) →
  (omap f l).*1 `sublist_of` g <$> l.
Proof.
  intros Hfg. induction l as [|x l IH]; cbn; [constructor|].
  destruct (f x) as [y|] eqn:E; cbn.
  - rewrite (Hfg x y E). by constructor.
  - by constructor.
Qed.

Lemma temporal_folds_test_years (df : Frame) (year : list Z) (n_splits : Z) :
  year_column df = Some year →
  (temporal_folds df n_splits).*1
  `sublist_of` test_year_of (sorted_unique year)
               <$> candidate_range n_splits (sorted_unique year).
Proof.
  intros Hy. unfold temporal_folds. rewrite Hy.
  destruct (length (sorted_unique year) <? 3)%nat; [apply sublist_nil_l|].
  apply omap_fst_sublist. intros i [ty f] Hf.
  by apply temporal_fold_Some in Hf as [-> _].
Qed.

(** C7.  [temporal_cv] considers min(n_splits, |Y| - 2) candidate folds
    (none when that is not positive), whose test years are the last years of
    the sorted distinct years Y read backwards; the folds it records are
    among them, in that order, and each has at least two training years and
    at least ten test rows.  With the years 2018 to 2021 and five splits the
    candidates are 2021 and 2020, so at most two folds are recorded, and with
    ten rows a year both are. *)
Theorem temporal_cv_fold_structure :
  (∀ (n_splits : Z) (years : list Z),
     length (candidate_range n_splits years)
     = Z.to_nat (Z.min n_splits (Z.of_nat (length years) - 2)) ∧
     test_year_of years <$> candidate_range n_splits years
     = take (length (candidate_range n_splits years)) (reverse years)) ∧
  (∀ (df : Frame) (year : list Z) (n_splits : Z),
     year_column df = Some year →
     (temporal_folds df n_splits).*1
     `sublist_of` test_year_of (sorted_unique year)
                  <$> candidate_range n_splits (sorted_unique year) ∧
     ∀ ty f, (ty, f) ∈ temporal_folds df n_splits →
       (2 ≤ length (List.filter (λ y, (y <? ty)%Z) (sorted_unique year)))%nat ∧
       (10 ≤ length (test_idx f))%nat) ∧
  (∀ (df : Frame) (year : list Z),
     year_column df = Some year →
     sorted_unique year = [2018; 2019; 2020; 2021]%Z →
     (temporal_folds df 5).*1 `sublist_of` [2021; 2020]%Z ∧
     (length (temporal_folds df 5) ≤ 2)%nat) ∧
  (temporal_folds four_years 5).*1 = [2021; 2020]%Z.
Proof.
  split; [|split; [|split]].
  - intros n_splits years.
    split; [apply candidate_range_length | apply candidate_test_years].
  - intros df year n_splits Hy. split; [by apply temporal_folds_test_years|].
    intros ty f Hf.
    destruct (temporal_folds_elem df year n_splits ty f Hy Hf) as (k & _ & Hk).
    by apply temporal_fold_Some in Hk as (_ & ? & ? & _).
  - intros df year Hy Hs.
    pose proof (temporal_folds_test_years df year 5 Hy) as Hsub.
    rewrite Hs in Hsub.
    assert (test_year_of [2018; 2019; 2020; 2021]%Z
              <$> candidate_range 5 [2018; 2019; 2020; 2021]%Z
            = [2021; 2020]%Z) as E by reflexivity.
    rewrite E in Hsub. split; [done|]. apply sublist_length in Hsub.
    by rewrite length_fmap in Hsub.
  - by vm_compute.
Qed.

Lemma temporal_cv_fold_structure_witness :
  (temporal_folds four_years 5).*1 `sublist_of` [2021; 2020]%Z ∧
  (length (temporal_folds four_years 5) ≤ 2)%nat.
Proof.
  apply (proj1 (proj2 (proj2 temporal_cv_fold_structure)) four_years ten_each);
    reflexivity.
Defined.

(** ** Spatial cross-validation *)

Lemma elem_of_insert_string (x y : string) (l : list string) :
  x ∈ insert_string y l ↔ x = y ∨ x ∈ l.
Proof.
  induction l as [|z l IH]; cbn.
  - rewrite list_elem_of_singleton, elem_of_nil. tauto.
  - destruct (String.eqb_spec y z) as [->|Hne].
    + rewrite elem_of_cons. tauto.
    + destruct (String.leb y z); rewrite !elem_of_cons; [tauto|].
      rewrite IH. tauto.
Qed.

Lemma elem_of_classes_of (x : string) (l : list string) :
  x ∈ classes_of l ↔ x ∈ l.
Proof.
  unfold classes_of. induction l as [|y l IH]; cbn; [done|].
  by rewrite elem_of_insert_string, elem_of_cons, IH.
Qed.

Lemma insert_string_sorted (y : string) (l : list string) :
  StronglySorted OrderedTypeEx.String_as_OT.lt l →
  StronglySorted OrderedTypeEx.String_as_OT.lt (insert_string y l).
Proof.
  induction 1 as [|z l Hl IH Hz]; cbn.
  - repeat constructor.
  - destruct (String.eqb_spec y z) as [->|Hne]; [by constructor|].
    unfold String.leb.
    destruct (String.compare y z) eqn:E.
    + by apply OrderedTypeEx.String_as_OT.cmp_eq in E.
    + apply OrderedTypeEx.String_as_OT.cmp_lt in E.
      constructor; [by constructor|]. constructor; [done|].
      eapply Forall_impl; [exact Hz|]. intros w Hw. cbn in Hw.
      by eapply OrderedTypeEx.String_as_OT.lt_trans.
    + assert (OrderedTypeEx.String_as_OT.lt z y) as Hzy.
      { apply OrderedTypeEx.String_as_OT.cmp_lt.
        unfold OrderedTypeEx.String_as_OT.cmp.
        rewrite String.compare_antisym, E. done. }
      constructor; [done|]. apply Forall_forall. intros x Hx.
      apply elem_of_insert_string in Hx as [->|Hx]; [done|].
      by eapply Forall_forall in Hz.
Qed.

(** The classes are the distinct texts, each once. *)
Lemma classes_of_NoDup (l : list string) : NoDup (classes_of l).
Proof.
  assert (StronglySorted OrderedTypeEx.String_as_OT.lt (classes_of l)) as Hs.
  { unfold classes_of. induction l as [|y l IH]; cbn; [constructor|].
    by apply insert_string_sorted. }
  induction Hs as [|x k _ IH Hx]; constructor; [|done].
  intros Hin. eapply Forall_forall in Hx; [|exact Hin].
  by apply OrderedTypeEx.String_as_OT.lt_not_eq in Hx.
Qed.

Lemma elem_of_insert_by_size (x y : string * nat) (l : list (string * nat)) :
  x ∈ insert_by_size y l ↔ x = y ∨ x ∈ l.
Proof.
  induction l as [|z l IH]; cbn.
  - rewrite list_elem_of_singleton, elem_of_nil. tauto.
  - destruct (y.2 <=? z.2)%nat; rewrite !elem_of_cons; [tauto|].
    rewrite IH. tauto.
Qed.

Lemma elem_of_largest_first (x : string * nat) (l : list (string * nat)) :
  x ∈ largest_first l ↔ x ∈ l.
Proof.
  unfold largest_first. rewrite elem_of_reverse.
  induction l as [|y l IH]; cbn; [done|].
  by rewrite elem_of_insert_by_size, elem_of_cons, IH.
Qed.

Lemma argmin_lt (l : list nat) : l ≠ [] → (argmin l < length l)%nat.
Proof.
  induction l as [|x l IH]; [done|]. intros _. cbn [argmin length].
  destruct l as [|y l]; [lia|].
  destruct (x <=? (y :: l) !!! argmin (y :: l))%nat; [lia|].
  specialize (IH ltac:(done)). lia.
Qed.

Lemma assign_groups_spec (n : nat) (l : list (string * nat))
  (loads : list nat) (m : gmap string nat) :
  (0 < n)%nat → length loads = n →
  (∀ g k, m !! g = Some k → (k < n)%nat) →
  let r := foldl assign_group (loads, m) l in
  (∀ g k, r.2 !! g = Some k → (k < n)%nat) ∧
  (∀ g, (g ∈ l.*1 ∨ is_Some (m !! g)) → is_Some (r.2 !! g)).
Proof.
  revert loads m. induction l as [|[g w] l IH]; intros loads m Hn Hlen Hm; cbn.
  - split; [done|]. intros g [?%elem_of_nil|?]; done.
  - assert (argmin loads < n)%nat as Harg.
    { rewrite <- Hlen. apply argmin_lt. destruct loads; [cbn in *; lia | done]. }
    edestruct (IH (<[argmin loads := (loads !!! argmin loads + w)%nat]> loads)
                 (<[g := argmin loads]> m)) as [Hlt Hsome]; [done| | |].
    + by rewrite length_insert.
    + intros g' k. rewrite lookup_insert. case_decide; [|by apply Hm].
      by intros [= <-].
    + split; [done|]. intros g' Hg'. apply Hsome.
      rewrite lookup_insert. case_decide; [right; by eexists|].
      destruct Hg' as [Hg'|?]; [|by right].
      apply elem_of_cons in Hg' as [?|?]; [by subst | by left].
Qed.

Lemma group_to_fold_spec (n : nat) (groups : list string) (g : string) :
  (0 < n)%nat → g ∈ groups →
  ∃ k, group_to_fold n groups !! g = Some k ∧ (k < n)%nat.
Proof.
  intros Hn Hg. unfold group_to_fold.
  edestruct (assign_groups_spec n
               (largest_first ((λ g, (g, n_samples groups g)) <$> classes_of groups))
               (replicate n 0%nat) ∅) as [Hlt Hsome]; [done| | |].
  - by rewrite length_replicate.
  - intros ? ?. by rewrite lookup_empty.
  - destruct (Hsome g) as [k Hk].
    + left. apply list_elem_of_fmap. exists (g, n_samples groups g).
      split; [done|]. apply elem_of_largest_first, list_elem_of_fmap.
      exists g. split; [done|]. by apply elem_of_classes_of.
    + exists k. split; [done|]. by eapply Hlt.
Qed.

(** The fold of index [k] that [split] yields. *)
Definition fold_at (n_splits : nat) (groups : list string) (k : nat) : fold :=
  let indices := (λ g, group_to_fold n_splits groups !!! g) <$> groups in
  mkFold (positions ((λ i, negb (i =? k)%nat) <$> indices))
         (positions ((λ i, (i =? k)%nat) <$> indices)).

Lemma split_folds (n_splits : nat) (groups : list string) :
  (n_splits ≤ length (classes_of groups))%nat →
  split n_splits groups = Ok (fold_at n_splits groups <$> seq 0 n_splits).
Proof.
  intros Hn. unfold split.
  destruct (Nat.ltb_spec (length (classes_of groups)) n_splits); [lia|]. done.
Qed.

Lemma elem_of_test_idx (n_splits : nat) (groups : list string) (k i : nat) :
  i ∈ test_idx (fold_at n_splits groups k)
  ↔ ∃ g, groups !! i = Some g ∧ group_to_fold n_splits groups !!! g = k.
Proof.
  unfold fold_at. cbn [test_idx]. rewrite <- list_fmap_compose.
  rewrite elem_of_positions_fmap. cbn.
  by setoid_rewrite Nat.eqb_eq.
Qed.

Lemma elem_of_train_idx (n_splits : nat) (groups : list string) (k i : nat) :
  i ∈ train_idx (fold_at n_splits groups k)
  ↔ ∃ g, groups !! i = Some g ∧ group_to_fold n_splits groups !!! g ≠ k.
Proof.
  unfold fold_at. cbn [train_idx]. rewrite <- list_fmap_compose.
  rewrite elem_of_positions_fmap. cbn.
  by setoid_rewrite negb_true_iff; setoid_rewrite Nat.eqb_neq.
Qed.

Lemma spatial_folds_Ok (df : Frame) (groups : list string) (n_splits : Z) :
  district_column df = Some groups →
  (2 ≤ n_splits)%Z → (2 ≤ length (classes_of groups))%nat →
  let n := Z.to_nat (Z.min n_splits (Z.of_nat (length (classes_of groups)))) in
  spatial_folds df n_splits = Ok (fold_at n groups <$> seq 0 n).
Proof.
  intros Hd Hn Hg n. unfold spatial_folds, GroupKFold. rewrite Hd.
  destruct (Z.leb_spec (Z.min n_splits (Z.of_nat (length (classes_of groups)))) 1);
    [lia|].
  cbn. apply split_folds. lia.
Qed.

(** C2, as amended.  On a table with a district column of at least two
    distinct districts and with at least two splits asked for, [spatial_cv]
    iterates over min(n_splits, number of distinct districts) folds; every
    row is on the test side of exactly one of them and on the training side
    of the others, and in no fold does a district of a training row occur
    among the test rows.  The distinct districts are the classes, each
    once. *)
Theorem spatial_cv_group_disjoint (df : Frame) (groups : list string)
  (n_splits : Z) :
  district_column df = Some groups →
  (2 ≤ n_splits)%Z → (2 ≤ length (classes_of groups))%nat →
  NoDup (classes_of groups) ∧ (∀ g, g ∈ classes_of groups ↔ g ∈ groups) ∧
  ∃ folds, spatial_folds df n_splits = Ok folds ∧
    length folds
    = Z.to_nat (Z.min n_splits (Z.of_nat (length (classes_of groups)))) ∧
    (∀ i g, groups !! i = Some g →
       ∃ k, (k < length folds)%nat ∧
            ∀ k' f, folds !! k' = Some f → (i ∈ test_idx f ↔ k' = k)) ∧
    (∀ f, f ∈ folds →
       (∀ i, (i < length groups)%nat → (i ∈ train_idx f ↔ i ∉ test_idx f)) ∧
       (∀ i j g, i ∈ train_idx f → j ∈ test_idx f →
                 groups !! i = Some g → groups !! j ≠ Some g)).
Proof.
  intros Hd Hn Hg.
  split; [apply classes_of_NoDup|].
  split; [intros g; apply elem_of_classes_of|].
  eexists. split; [by apply spatial_folds_Ok|].
  set (n := Z.to_nat (Z.min n_splits (Z.of_nat (length (classes_of groups))))).
  assert (0 < n)%nat as Hpos by lia.
  split; [by rewrite length_fmap, length_seq|]. split.
  - intros i g Hi.
    destruct (group_to_fold_spec n groups g Hpos) as (k & Hk & Hlt).
    { by eapply list_elem_of_lookup_2. }
    exists k. split; [by rewrite length_fmap, length_seq|].
    intros k' f. rewrite list_lookup_fmap.
    destruct (seq 0 n !! k') as [j|] eqn:Ej; [|done].
    apply lookup_seq in Ej as [-> _]. intros [= <-].
    rewrite elem_of_test_idx. apply lookup_total_correct in Hk. split.
    + intros (g' & Hg' & <-). congruence.
    + intros ->. by exists g.
  - intros f (k & -> & _)%list_elem_of_fmap. split.
    + intros i Hi. rewrite elem_of_train_idx, elem_of_test_idx.
      apply lookup_lt_is_Some in Hi as [g Hi]. split.
      * intros (g1 & H1 & Hne) (g2 & H2 & He). congruence.
      * intros Hno. exists g. split; [done|]. intros He. apply Hno.
        by exists g.
    + intros i j g (g1 & H1 & Hne)%elem_of_train_idx
        (g2 & H2 & He)%elem_of_test_idx Hi Hj. congruence.
Qed.

Definition two_districts : Frame :=
  mkFrame None (Some ["pune"; "nashik"; "pune"; "agra"]).

Lemma spatial_cv_group_disjoint_witness :
  ∃ folds, spatial_folds two_districts 2 = Ok folds ∧ length folds = 2%nat.
Proof.
  destruct (spatial_cv_group_disjoint two_districts
              ["pune"; "nashik"; "pune"; "agra"] 2)
    as (_ & _ & folds & Hf & Hlen & _).
  - reflexivity.
  - lia.
  - vm_compute. lia.
  - exists folds. split; [exact Hf|]. rewrite Hlen. by vm_compute.
Defined.

(** C2, as stated, fails: on a table with a single district no fold is
    made, the constructor of [GroupKFold] refuses [n_splits = min(5, 1)]. *)
Lemma spatial_cv_single_district :
  spatial_folds (mkFrame None (Some ["pune"; "pune"; "pune"])) 5
  = Raise ValueError.
Proof. reflexivity. Qed.

(** ** The fallback of the metrics record *)

(** Three years, one row each: the one candidate fold has a single test
    row and is skipped. *)
Definition three_years : Frame := mkFrame (Some [2018; 2019; 2020]%Z) None.

Section Fallback.
Context `{Numerics} `{Estimator}.

Lemma mean_singleton (q : Q) : (mean [q] == q)%Q.
Proof. unfold mean, Qsum. cbn. field. Qed.

(** Where a strategy returns [{}] the mean is the hold-out R². *)
Lemma fallback_on_empty_dict :
  ∃ q, np_mean (get "r2" [holdout_r2] ∅) = Some q ∧ (q == holdout_r2)%Q.
Proof. eexists. split; [reflexivity | apply mean_singleton]. Qed.

(** Where it returns the dictionary with no score in it, the mean is NaN. *)
Lemma no_fallback_on_empty_list (results : gmap string (list Q)) :
  results !! "r2" = Some [] → np_mean (get "r2" [holdout_r2] results) = None.
Proof. intros Hr. unfold get. by rewrite Hr. Qed.

End Fallback.

(** * Further properties of the code *)

(** ** [detect_agronomic_outliers] on any table *)

Lemma rmap_Ok_inv {A B} (f : A → result B) (l : list A) (ys : list B) :
  rmap f l = Ok ys → Forall2 (λ x y, f x = Ok y) l ys.
Proof.
  revert ys. induction l as [|x l IH]; intros ys; cbn.
  - intros [= <-]. constructor.
  - destruct (f x) as [y|e] eqn:Ex; [|done]. cbn.
    destruct (rmap f l) as [ys'|e]; [|done]. cbn. intros [= <-].
    constructor; [done | by apply IH].
Qed.

Lemma select_Forall2 {A} (p : A → bool → Prop) (l : list A) (mask : list bool) :
  Forall2 p l mask → Forall (λ x, p x true) (select mask l).
Proof.
  induction 1 as [|x b l mask Hx _ IH]; cbn; [constructor|].
  destruct b; [by constructor | done].
Qed.

Lemma select_all_true {A} (f : A → result bool) (l : list A) :
  Forall (λ x, f x = Ok true) l → ∃ mask, rmap f l = Ok mask ∧ select mask l = l.
Proof.
  induction 1 as [|x l Hx _ (mask & Hm & Hs)]; cbn.
  - by exists [].
  - exists (true :: mask). rewrite Hx. cbn. rewrite Hm. cbn. by rewrite Hs.
Qed.

Lemma detect_Ok_inv (df out : DataFrame) :
  detect_agronomic_outliers df = Ok out →
  rows df ≠ [] ∧ columns out = columns df ∧
  ∃ mask, rmap is_valid_yield (rows df) = Ok mask ∧
          rows out = select mask (rows df).
Proof.
  unfold detect_agronomic_outliers, len.
  destruct (rmap is_valid_yield (rows df)) as [mask|e] eqn:Em; [|done]. cbn.
  destruct (rows df) as [|r rs] eqn:Er; [done|]. cbn. intros [= <-].
  split; [done|]. split; [done|]. by exists mask.
Qed.

(** Every pair of bounds of the table lies within 50 and 150000. *)
Lemma limits_of_range (key : option string) :
  (50 <= fst (limits_of key))%Q ∧ (snd (limits_of key) <= 150000)%Q.
Proof.
  assert (map_Forall (λ _ b, (50 <= fst b)%Q ∧ (snd b <= 150000)%Q)
            CROP_YIELD_LIMITS) as Hall.
  { unfold CROP_YIELD_LIMITS. apply map_Forall_to_list.
    rewrite map_to_list_to_map by (by vm_compute; repeat constructor;
      rewrite ?elem_of_cons, ?elem_of_nil; intuition discriminate).
    repeat (apply Forall_cons_2; [split; by apply Qle_bool_iff|]).
    apply Forall_nil_2. }
  destruct key as [k|]; [|split; by apply Qle_bool_iff].
  change (limits_of (Some k))
    with (default (CROP_YIELD_LIMITS !!! "default") (CROP_YIELD_LIMITS !! k)).
  rewrite default_limits.
  destruct (CROP_YIELD_LIMITS !! k) as [b|] eqn:Ek.
  - by apply (Hall k b).
  - split; by apply Qle_bool_iff.
Qed.

Lemma is_valid_yield_true (r : gmap string cell) :
  is_valid_yield r = Ok true →
  ∃ c y, r !! "crop" = Some c ∧ r !! "yield" = Some (Num y) ∧
         (0 < y)%Q ∧ (fst (limits_of (crop_key c)) <= y)%Q ∧
         (y <= snd (limits_of (crop_key c)))%Q.
Proof.
  unfold is_valid_yield.
  destruct (r !! "crop") as [c|]; [|done].
  destruct (r !! "yield") as [[y| |]|]; try done.
  destruct (Qle_bool y 0) eqn:E0; [done|]. intros [= Hb].
  apply andb_true_iff in Hb as [Hlo Hhi].
  exists c, y. repeat split; try done.
  - by apply Qle_bool_false.
  - by apply Qle_bool_iff.
  - by apply Qle_bool_iff.
Qed.

(** X1.  The filter returns only on a table with a row; the rows it returns are
    rows of the input in their order, under the same columns, and each has
    a crop and a numeric yield within the bounds of its crop, so between 50
    and 150000. *)
Theorem detect_postcondition (df out : DataFrame) :
  detect_agronomic_outliers df = Ok out →
  rows df ≠ [] ∧ columns out = columns df ∧
  rows out `sublist_of` rows df ∧
  ∀ r, r ∈ rows out →
    ∃ c y, r !! "crop" = Some c ∧ r !! "yield" = Some (Num y) ∧
           (fst (limits_of (crop_key c)) <= y)%Q ∧
           (y <= snd (limits_of (crop_key c)))%Q ∧
           (50 <= y)%Q ∧ (y <= 150000)%Q.
Proof.
  intros (Hne & Hc & mask & Hm & Hr)%detect_Ok_inv.
  split; [done|]. split; [done|]. split.
  - rewrite Hr. clear. revert mask.
    induction (rows df) as [|r rs IH]; intros [|[] mask]; cbn;
      try apply sublist_nil_l.
    + by apply sublist_skip.
    + by apply sublist_cons.
  - intros r Hin. apply rmap_Ok_inv in Hm.
    apply (select_Forall2 (λ x b, is_valid_yield x = Ok b)) in Hm.
    rewrite <- Hr in Hm. eapply Forall_forall in Hm; [|exact Hin].
    apply is_valid_yield_true in Hm as (c & y & ? & ? & _ & Hlo & Hhi).
    destruct (limits_of_range (crop_key c)) as [H50 Hmax].
    exists c, y. repeat split; try done.
    + by eapply Qle_trans.
    + by eapply Qle_trans.
Qed.

Lemma detect_postcondition_witness :
  rows (mkDF ["crop"; "yield"] [rice 9000; rice 5000]) ≠ [] ∧
  columns (mkDF ["crop"; "yield"] [rice 5000]) = ["crop"; "yield"].
Proof.
  destruct (detect_postcondition
              (mkDF ["crop"; "yield"] [rice 9000; rice 5000])
              (mkDF ["crop"; "yield"] [rice 5000])) as (Hne & Hc & _).
  - by vm_compute.
  - split; [exact Hne | exact Hc].
Defined.

(** X2.  Filtering a filtered table changes nothing, unless nothing was left:
    then the second call raises on its summary line. *)
Theorem detect_twice (df out : DataFrame) :
  detect_agronomic_outliers df = Ok out →
  (rows out ≠ [] → detect_agronomic_outliers out = Ok out) ∧
  (rows out = [] → detect_agronomic_outliers out = Raise ZeroDivisionError).
Proof.
  intros Hd. split.
  - intros Hne. apply detect_Ok_inv in Hd as (_ & _ & mask & Hm & Hr).
    apply rmap_Ok_inv in Hm.
    apply (select_Forall2 (λ x b, is_valid_yield x = Ok b)) in Hm.
    rewrite <- Hr in Hm.
    destruct (select_all_true is_valid_yield (rows out) Hm) as (m' & Hm' & Hs).
    unfold detect_agronomic_outliers, len. rewrite Hm'. cbn. rewrite Hs.
    destruct out as [cs rs]. cbn in *. by destruct rs.
  - intros He. unfold detect_agronomic_outliers, len. by rewrite He.
Qed.

Lemma detect_twice_witness :
  detect_agronomic_outliers (mkDF ["crop"; "yield"] [rice 5000])
  = Ok (mkDF ["crop"; "yield"] [rice 5000]).
Proof.
  apply (detect_twice (mkDF ["crop"; "yield"] [rice 9000; rice 5000])).
  - by vm_compute.
  - by vm_compute.
Defined.

(** ** Case and white space *)

Lemma lower_ascii_idem (c : ascii) : lower_ascii (lower_ascii c) = lower_ascii c.
Proof. destruct c as [[] [] [] [] [] [] [] []]; reflexivity. Qed.

Lemma lower_upper_ascii (c : ascii) : lower_ascii (upper_ascii c) = lower_ascii c.
Proof. destruct c as [[] [] [] [] [] [] [] []]; reflexivity. Qed.

Lemma upper_lower_ascii (c : ascii) : upper_ascii (lower_ascii c) = upper_ascii c.
Proof. destruct c as [[] [] [] [] [] [] [] []]; reflexivity. Qed.

Lemma upper_ascii_idem (c : ascii) : upper_ascii (upper_ascii c) = upper_ascii c.
Proof. destruct c as [[] [] [] [] [] [] [] []]; reflexivity. Qed.

Lemma is_space_lower (c : ascii) : is_space (lower_ascii c) = is_space c.
Proof. destruct c as [[] [] [] [] [] [] [] []]; reflexivity. Qed.

Lemma lower_idem (s : string) : lower (lower s) = lower s.
Proof. induction s as [|c s IH]; cbn; [done|]. by rewrite lower_ascii_idem, IH. Qed.

Lemma lower_upper (s : string) : lower (upper s) = lower s.
Proof. induction s as [|c s IH]; cbn; [done|]. by rewrite lower_upper_ascii, IH. Qed.

Lemma upper_lower (s : string) : upper (lower s) = upper s.
Proof. induction s as [|c s IH]; cbn; [done|]. by rewrite upper_lower_ascii, IH. Qed.

Lemma upper_idem (s : string) : upper (upper s) = upper s.
Proof. induction s as [|c s IH]; cbn; [done|]. by rewrite upper_ascii_idem, IH. Qed.

Lemma lower_lstrip (s : string) : lower (lstrip s) = lstrip (lower s).
Proof.
  induction s as [|c s IH]; cbn; [done|].
  rewrite is_space_lower. by destruct (is_space c).
Qed.

Lemma lower_rstrip (s : string) : lower (rstrip s) = rstrip (lower s).
Proof.
  induction s as [|c s IH]; cbn; [done|].
  rewrite <- IH, is_space_lower.
  destruct (rstrip s); cbn; [by destruct (is_space c) | done].
Qed.

Lemma lower_strip (s : string) : lower (strip s) = strip (lower s).
Proof. unfold strip. by rewrite lower_rstrip, lower_lstrip. Qed.

Lemma rstrip_idem (s : string) : rstrip (rstrip s) = rstrip s.
Proof.
  induction s as [|c s IH]; cbn; [done|].
  destruct (rstrip s) as [|d t] eqn:E.
  - destruct (is_space c) eqn:Ec; cbn; [done | by rewrite Ec].
  - cbn [rstrip]. cbn [rstrip] in IH. by rewrite IH.
Qed.

(** A text that does not start with white space. *)
Definition no_lead (s : string) : Prop :=
  match s with
  | EmptyString => True
  | String c _ => is_space c = false
  end.

Lemma lstrip_no_lead (s : string) : no_lead (lstrip s).
Proof.
  induction s as [|c s IH]; cbn; [done|].
  by destruct (is_space c) eqn:E.
Qed.

Lemma no_lead_lstrip (s : string) : no_lead s → lstrip s = s.
Proof. destruct s as [|c s]; cbn; [done|]. by intros ->. Qed.

Lemma no_lead_rstrip (s : string) : no_lead s → no_lead (rstrip s).
Proof.
  destruct s as [|c s]; cbn; [done|]. intros Hc.
  destruct (rstrip s); [by rewrite Hc | done].
Qed.

Lemma strip_idem (s : string) : strip (strip s) = strip s.
Proof.
  unfold strip.
  rewrite (no_lead_lstrip (rstrip (lstrip s)))
    by apply no_lead_rstrip, lstrip_no_lead.
  apply rstrip_idem.
Qed.

(** The key of a text is in normal form: normalising it again gives it back. *)
Lemma strip_lower_idem (s : string) :
  strip (lower (strip (lower s))) = strip (lower s).
Proof. by rewrite <- lower_strip, strip_idem, lower_strip, lower_idem. Qed.

(** X3.  The filter does not tell a crop name from its upper-cased, lower-cased
    or already normalised form: the rows are judged alike. *)
Theorem is_valid_yield_case_insensitive (r : gmap string cell) (name : string) :
  is_valid_yield (<["crop" := Str (upper name)]> r)
  = is_valid_yield (<["crop" := Str name]> r) ∧
  is_valid_yield (<["crop" := Str (lower name)]> r)
  = is_valid_yield (<["crop" := Str name]> r) ∧
  is_valid_yield (<["crop" := Str (strip (lower name))]> r)
  = is_valid_yield (<["crop" := Str name]> r).
Proof.
  unfold is_valid_yield. rewrite !lookup_insert_eq.
  rewrite !lookup_insert_ne by done. unfold crop_key.
  by rewrite lower_upper, lower_idem, strip_lower_idem.
Qed.

Section NormalisationFacts.
Context `{Numerics}.

Lemma season_values_fixed :
  map_Forall (λ _ w, normalize_season (Str w) = w) SEASON_MAPPING.
Proof.
  unfold SEASON_MAPPING. apply map_Forall_to_list.
  rewrite map_to_list_to_map by (by vm_compute; repeat constructor;
    rewrite ?elem_of_cons, ?elem_of_nil; intuition discriminate).
  repeat (apply Forall_cons_2; [reflexivity|]). apply Forall_nil_2.
Qed.

(** X4.  Normalising a season a second time changes nothing: a synonym is
    mapped to a name that is no synonym, any other text to its lower-cased,
    trimmed form, a missing value to kharif. *)
Theorem normalize_season_idempotent (season : cell) :
  normalize_season (Str (normalize_season season)) = normalize_season season.
Proof.
  assert (∀ t, normalize_season (Str (default (strip (lower t))
                                        (SEASON_MAPPING !! strip (lower t))))
               = default (strip (lower t)) (SEASON_MAPPING !! strip (lower t)))
    as Hkey.
  { intros t.
    destruct (SEASON_MAPPING !! strip (lower t)) as [w|] eqn:E;
      cbn [default from_option].
    - by apply (season_values_fixed (strip (lower t)) w).
    - unfold normalize_season. cbn [py_str]. by rewrite strip_lower_idem, E. }
  destruct season as [q|s|]; [apply Hkey | apply Hkey | reflexivity].
Qed.

(** X5.  The region of a state is one of the five regions, and it does not
    depend on the case of the state name. *)
Theorem map_state_to_region_total (state : cell) (s : string) :
  map_state_to_region state
  ∈ ["north-india"; "south-india"; "east-india"; "west-india"; "central-india"] ∧
  map_state_to_region (Str (upper s)) = map_state_to_region (Str s) ∧
  map_state_to_region (Str (lower s)) = map_state_to_region (Str s).
Proof.
  split; [|split].
  - assert (∀ t, match List.find (λ '(_, states),
                         existsb (λ s, contains s t) states) REGION_MAPPING
                 with Some (region, _) => region | None => "central-india" end
                 ∈ fst <$> REGION_MAPPING) as Hfind.
    { intros t.
      destruct (List.find _ REGION_MAPPING) as [[region states]|] eqn:E.
      - apply find_some in E as [Hin _]. apply list_elem_of_In in Hin.
        by apply (list_elem_of_fmap_2 fst) in Hin.
      - cbn. rewrite !elem_of_cons. tauto. }
    destruct state as [q|t|]; [apply Hfind | apply Hfind |].
    cbn. rewrite !elem_of_cons. tauto.
  - unfold map_state_to_region. cbn [py_str]. by rewrite upper_idem.
  - unfold map_state_to_region. cbn [py_str]. by rewrite upper_lower.
Qed.
End NormalisationFacts.

(** ** Steps 2 and 3 of [preprocess_data] *)

Lemma col_length (c : string) (df : DataFrame) : length (col c df) = len df.
Proof. unfold col, len. by rewrite length_fmap. Qed.

Lemma map_column_facts (c : string) (f : cell → cell) (df : DataFrame) :
  len (map_column c f df) = len df ∧
  (∀ c', has_column c' (map_column c f df) = has_column c' df || bool_decide (c' = c)) ∧
  col c (map_column c f df) = f <$> col c df ∧
  (∀ c', c' ≠ c → col c' (map_column c f df) = col c' df).
Proof.
  assert (length (f <$> col c df) = len df) as Hlen
    by by rewrite length_fmap, col_length.
  unfold map_column. split; [by apply len_set_column|].
  split; [intros c'; apply has_column_set_column|].
  split; [by apply col_set_column_eq|].
  intros c' Hne. by apply col_set_column_ne.
Qed.

(** One entry of [column_mapping]. *)
Definition copy_if_absent (old new : string) (df : DataFrame) : DataFrame :=
  if has_column old df && negb (has_column new df)
  then set_column new (col old df) df else df.

Lemma copy_if_absent_facts (old new : string) (df : DataFrame) :
  len (copy_if_absent old new df) = len df ∧
  (∀ c, has_column c (copy_if_absent old new df)
        = has_column c df
          || (has_column old df && negb (has_column new df) && bool_decide (c = new))) ∧
  (∀ c, has_column c df = true → col c (copy_if_absent old new df) = col c df) ∧
  (has_column old df = true → has_column new df = false →
   col new (copy_if_absent old new df) = col old df).
Proof.
  unfold copy_if_absent.
  destruct (has_column old df) eqn:Ho, (has_column new df) eqn:Hn; cbn;
    try (repeat split; try done; intros c; by rewrite orb_false_r).
  pose proof (col_length old df) as Hlen.
  split; [by apply len_set_column|].
  split; [intros c; apply has_column_set_column|]. split.
  - intros c Hc. apply col_set_column_ne; [|done]. intros ->. congruence.
  - intros _ _. by apply col_set_column_eq.
Qed.

Lemma apply_column_mapping_unfold (df : DataFrame) :
  apply_column_mapping df
  = copy_if_absent "crop_year" "year"
      (copy_if_absent "area" "area_hectares"
         (copy_if_absent "annual_rainfall" "rainfall" df)).
Proof. reflexivity. Qed.

(** X7.  The column mapping only adds columns: every column of the input keeps
    its values, so a canonical column that exists is never overwritten by
    its synonym, and the number of rows is unchanged.  A synonym that is
    present while its canonical name is absent is copied under that name. *)
Theorem apply_column_mapping_adds (df : DataFrame) :
  len (apply_column_mapping df) = len df ∧
  (∀ c, has_column c df = true →
        has_column c (apply_column_mapping df) = true ∧
        col c (apply_column_mapping df) = col c df) ∧
  (∀ old new, (old, new) ∈ column_mapping →
     has_column old df = true → has_column new df = false →
     has_column new (apply_column_mapping df) = true ∧
     col new (apply_column_mapping df) = col old df).
Proof.
  rewrite apply_column_mapping_unfold.
  set (d1 := copy_if_absent "annual_rainfall" "rainfall" df).
  set (d2 := copy_if_absent "area" "area_hectares" d1).
  destruct (copy_if_absent_facts "annual_rainfall" "rainfall" df)
    as (L1 & C1 & K1 & N1).
  destruct (copy_if_absent_facts "area" "area_hectares" d1) as (L2 & C2 & K2 & N2).
  destruct (copy_if_absent_facts "crop_year" "year" d2) as (L3 & C3 & K3 & N3).
  fold d1 in L1, C1, K1, N1. fold d2 in L2, C2, K2, N2.
  assert (∀ c, has_column c df = true → has_column c d1 = true) as P1.
  { intros c Hc. by rewrite C1, Hc. }
  assert (∀ c, has_column c d1 = true → has_column c d2 = true) as P2.
  { intros c Hc. by rewrite C2, Hc. }
  assert (∀ c, has_column c d2 = true
               → has_column c (copy_if_absent "crop_year" "year" d2) = true) as P3.
  { intros c Hc. by rewrite C3, Hc. }
  split; [congruence|]. split.
  - intros c Hc. split; [by apply P3, P2, P1|].
    rewrite K3 by by apply P2, P1. rewrite K2 by by apply P1. by apply K1.
  - intros old new Hin Ho Hn.
    unfold column_mapping in Hin. rewrite !elem_of_cons, elem_of_nil in Hin.
    destruct Hin as [[= -> ->]|[[= -> ->]|[[= -> ->]|[]]]].
    + split; [apply P3, P2; by rewrite C1, Ho, Hn|].
      rewrite K3 by (apply P2; by rewrite C1, Ho, Hn).
      rewrite K2 by (by rewrite C1, Ho, Hn). by apply N1.
    + assert (has_column "area_hectares" d1 = false) as Hn1.
      { rewrite C1, Hn. cbn. by rewrite andb_false_r. }
      split; [apply P3; by rewrite C2, (P1 _ Ho), Hn1|].
      rewrite K3 by (by rewrite C2, (P1 _ Ho), Hn1).
      rewrite N2 by (by try apply P1). by apply K1.
    + assert (has_column "year" d2 = false) as Hn2.
      { rewrite C2, C1, Hn. cbn. by rewrite !andb_false_r. }
      split; [by rewrite C3, (P2 _ (P1 _ Ho)), Hn2|].
      rewrite N3 by (by try apply P2, P1).
      rewrite K2 by by apply P1. by apply K1.
Qed.

Lemma apply_column_mapping_adds_witness :
  len (apply_column_mapping bare_rice) = len bare_rice ∧
  col "crop" (apply_column_mapping bare_rice) = col "crop" bare_rice.
Proof.
  destruct (apply_column_mapping_adds bare_rice) as (Hl & Hc & _).
  split; [exact Hl|]. apply Hc. by vm_compute.
Defined.

Section CleanStrings.
Context `{Numerics}.

(** One turn of the loop of step 3. *)
Definition clean_one (df : DataFrame) (c : string) : DataFrame :=
  if has_column c df then map_column c clean_string df else df.

Lemma clean_one_facts (df : DataFrame) (c : string) :
  len (clean_one df c) = len df ∧
  (∀ c', has_column c' (clean_one df c) = has_column c' df) ∧
  col c (clean_one df c)
  = (if has_column c df then clean_string <$> col c df else col c df) ∧
  (∀ c', c' ≠ c → col c' (clean_one df c) = col c' df).
Proof.
  unfold clean_one. destruct (has_column c df) eqn:Hc; [|done].
  destruct (map_column_facts c clean_string df) as (L & C & K & N).
  split; [done|]. split; [|done].
  intros c'. rewrite C. case_bool_decide; [subst; by rewrite Hc|].
  by rewrite orb_false_r.
Qed.

Lemma clean_fold_facts (cs : list string) (df : DataFrame) :
  NoDup cs →
  len (foldl clean_one df cs) = len df ∧
  (∀ c, has_column c (foldl clean_one df cs) = has_column c df) ∧
  (∀ c, col c (foldl clean_one df cs)
        = if bool_decide (c ∈ cs) && has_column c df
          then clean_string <$> col c df else col c df).
Proof.
  intros Hnd. revert df.
  induction Hnd as [|c0 cs Hnin _ IH]; intros df; cbn [foldl].
  - split; [done|]. split; [done|]. intros c.
    by rewrite bool_decide_eq_false_2 by apply not_elem_of_nil.
  - destruct (clean_one_facts df c0) as (L1 & C1 & K1 & N1).
    destruct (IH (clean_one df c0)) as (L & C & K).
    split; [congruence|]. split; [intros c; by rewrite C, C1|].
    intros c. rewrite K, C1. destruct (decide (c = c0)) as [->|Hne].
    + rewrite (bool_decide_eq_false_2 (c0 ∈ cs)) by done.
      rewrite (bool_decide_eq_true_2 (c0 ∈ c0 :: cs)) by apply list_elem_of_here.
      cbn. exact K1.
    + rewrite N1 by done.
      assert (bool_decide (c ∈ c0 :: cs) = bool_decide (c ∈ cs)) as ->; [|done].
      apply bool_decide_ext. rewrite elem_of_cons. tauto.
Qed.

Lemma clean_string_normal (v : cell) :
  ∃ s, clean_string v = Str s ∧ strip (lower s) = s.
Proof.
  destruct v as [q|t|]; cbn [clean_string].
  - eexists. split; [done|]. apply strip_lower_idem.
  - eexists. split; [done|]. apply strip_lower_idem.
  - by exists "unknown".
Qed.

(** X8.  After step 3 the columns state, district, crop and season that the
    table has hold texts only, each lower-cased and trimmed (a missing
    value has become "unknown"); no other column changes, no column or row
    is added or removed. *)
Theorem clean_string_columns_normal (df : DataFrame) :
  len (clean_string_columns df) = len df ∧
  (∀ c, has_column c (clean_string_columns df) = has_column c df) ∧
  (∀ c, c ∈ string_cols → has_column c df = true →
        col c (clean_string_columns df) = clean_string <$> col c df ∧
        Forall (λ v, ∃ s, v = Str s ∧ strip (lower s) = s)
               (col c (clean_string_columns df))) ∧
  (∀ c, c ∉ string_cols → col c (clean_string_columns df) = col c df).
Proof.
  assert (NoDup string_cols) as Hnd.
  { unfold string_cols. repeat constructor;
      rewrite ?elem_of_cons, ?elem_of_nil; intuition discriminate. }
  destruct (clean_fold_facts string_cols df Hnd) as (L & C & K).
  change (foldl clean_one df string_cols) with (clean_string_columns df) in *.
  split; [done|]. split; [done|]. split.
  - intros c Hin Hc.
    assert (col c (clean_string_columns df) = clean_string <$> col c df) as E.
    { by rewrite K, bool_decide_eq_true_2, Hc. }
    split; [done|]. rewrite E. apply Forall_fmap, Forall_forall.
    intros v _. apply clean_string_normal.
  - intros c Hnin. by rewrite K, bool_decide_eq_false_2.
Qed.
End CleanStrings.

(** ** The label encoder *)

Lemma classes_of_sorted (l : list string) :
  StronglySorted OrderedTypeEx.String_as_OT.lt (classes_of l).
Proof.
  unfold classes_of. induction l as [|y l IH]; cbn; [constructor|].
  by apply insert_string_sorted.
Qed.

Lemma index_of_lookup (t : string) (l : list string) :
  t ∈ l → (index_of t l < length l)%nat ∧ l !! index_of t l = Some t.
Proof.
  induction l as [|y l IH]; [by intros ?%elem_of_nil|].
  intros Hin. cbn. destruct (String.eqb_spec t y) as [->|Hne].
  - split; [lia | done].
  - apply elem_of_cons in Hin as [?|Hin]; [done|].
    destruct (IH Hin). split; [lia | done].
Qed.

Section Encoder.
Context `{Numerics}.

(** X9.  Encoding a column that the table has appends the encoder of the column
    and writes the codes under [<column>_encoded]: the classes are the
    distinct texts of the column in increasing order, and the code of each
    cell is a position below the number of classes at which the classes
    hold the text of the cell, so decoding a code gives the text back. *)
Theorem encode_column_round_trip (c : string) (df : DataFrame) (enc : encoders) :
  has_column c df = true →
  ∃ df' classes_,
    encode_column c (df, enc) = (df', (enc ++ [(c, classes_)])%list) ∧
    len df' = len df ∧
    NoDup classes_ ∧
    StronglySorted OrderedTypeEx.String_as_OT.lt classes_ ∧
    (∀ t, t ∈ classes_ ↔ t ∈ py_str <$> col c df) ∧
    Forall2 (λ v code, ∃ k : nat, code = Num (inject_Z (Z.of_nat k)) ∧
                         (k < length classes_)%nat ∧
                         classes_ !! k = Some (py_str v))
            (col c df) (col (c +:+ "_encoded") df').
Proof.
  intros Hc. unfold encode_column. rewrite Hc.
  set (texts := py_str <$> col c df).
  set (codes := (λ t, Num (inject_Z (Z.of_nat (index_of t (classes_of texts)))))
                  <$> texts).
  assert (length codes = len df) as Hlen.
  { unfold codes, texts. by rewrite !length_fmap, col_length. }
  eexists _, (classes_of texts). split; [done|].
  split; [by apply len_set_column|].
  split; [apply classes_of_NoDup|]. split; [apply classes_of_sorted|].
  split; [intros t; apply elem_of_classes_of|].
  rewrite col_set_column_eq by done. unfold codes, texts.
  rewrite <- list_fmap_compose. apply Forall2_fmap_r, Forall_Forall2_diag.
  apply Forall_forall. intros v Hv. cbn.
  destruct (index_of_lookup (py_str v) (classes_of (py_str <$> col c df)))
    as [Hlt Hk].
  { apply elem_of_classes_of. by apply list_elem_of_fmap_2. }
  eexists. split; [done|]. split; done.
Qed.
End Encoder.

Lemma encode_column_round_trip_witness :
  ∃ df' classes_,
    @encode_column {| num_text _ := ""; text_num _ := None; np_sqrt q := q |}
      "crop" (bare_rice, [])
    = (df', [("crop", classes_)]) ∧ classes_ = ["rice"].
Proof.
  destruct (@encode_column_round_trip
              {| num_text _ := ""; text_num _ := None; np_sqrt q := q |}
              "crop" bare_rice []) as (df' & cl & E & _ & _ & _ & Hcl & _).
  - by vm_compute.
  - exists df', cl. split; [exact E|].
    vm_compute in E. by injection E as _ <-.
Defined.

(** ** Feature selection ([select_features]) *)

Definition feature_priority : list string :=
  [ "state_encoded"; "district_encoded"; "crop_encoded"; "season_encoded";
    "soil_type_encoded";
    "rainfall_scaled"; "temperature_scaled"; "humidity_scaled";
    "ndvi_scaled"; "soil_moisture_scaled"; "lst_scaled" ].

(** [df[cs]]: the table of the columns [cs], in that order. *)
Definition project (cs : list string) (df : DataFrame) : DataFrame :=
  mkDF cs ((λ r : gmap string cell,
              list_to_map ((λ c, (c, r !!! c)) <$> cs)) <$> rows df).

(** [df.fillna(v)] *)
Definition fillna_all (v : cell) (df : DataFrame) : DataFrame :=
  mkDF (columns df) ((λ r : gmap string cell, fillna v <$> r) <$> rows df).

Definition select_features (df : DataFrame) : DataFrame * list string :=
  let available_features :=
    List.filter (λ f, has_column f df) feature_priority in
  let X := fillna_all (Num 0) (project available_features df) in
  (X, available_features).

Lemma lookup_total_project_row (cs : list string) (r : gmap string cell)
  (c : string) :
  c ∈ cs →
  (list_to_map ((λ c, (c, r !!! c)) <$> cs) : gmap string cell) !! c
  = Some (r !!! c).
Proof.
  induction cs as [|c0 cs IH]; [by intros ?%elem_of_nil|].
  intros Hin. cbn. destruct (decide (c = c0)) as [->|Hne].
  - by rewrite lookup_insert_eq.
  - rewrite lookup_insert_ne by done. apply IH.
    by apply elem_of_cons in Hin as [?|?].
Qed.

(** X10.  The selected features are the features of the fixed priority list that
    are columns of the table, in the order of that list; the feature matrix
    has these columns and as many rows as the table, and each of its cells
    is the cell of the table, with 0 for a missing value. *)
Theorem select_features_ordered (df : DataFrame) :
  let '(X, available_features) := select_features df in
  available_features `sublist_of` feature_priority ∧
  (∀ f, f ∈ available_features ↔ f ∈ feature_priority ∧ has_column f df = true) ∧
  columns X = available_features ∧
  len X = len df ∧
  ∀ f, f ∈ available_features →
       col f X = fillna (Num 0) <$> col f df ∧
       Forall (λ v, v ≠ NaN) (col f X).
Proof.
  unfold select_features.
  set (av := List.filter (λ f, has_column f df) feature_priority).
  split; [|split; [|split; [done|split]]].
  - unfold av. generalize feature_priority. intros l.
    induction l as [|f l IH]; cbn; [constructor|].
    destruct (has_column f df); by constructor.
  - intros f. unfold av. rewrite list_elem_of_In, filter_In, <- list_elem_of_In.
    done.
  - unfold len, fillna_all, project. cbn. by rewrite !length_fmap.
  - intros f Hf.
    assert (col f (fillna_all (Num 0) (project av df))
            = fillna (Num 0) <$> col f df) as E.
    { unfold col, fillna_all, project. cbn. rewrite <- !list_fmap_compose.
      apply list_fmap_ext. intros i r _. cbn.
      rewrite lookup_total_alt, lookup_fmap, lookup_total_project_row by done.
      done. }
    split; [done|]. rewrite E. apply Forall_fmap, Forall_forall.
    intros v _. cbn. by destruct v.
Qed.

(** ** What the validation strategies record *)

Open Scope list_scope.

Lemma append_to_lookup (k k' : string) (x : Q) (results : gmap string (list Q))
  (a : list Q) :
  results !! k = Some a →
  append_to k x results !! k'
  = if decide (k = k') then Some (a ++ [x])%list else results !! k'.
Proof.
  intros Ha. unfold append_to. rewrite lookup_insert.
  by rewrite (lookup_total_correct _ _ _ Ha).
Qed.

Lemma record_scores_lookup (s : scores) (results : gmap string (list Q))
  (a b c : list Q) :
  results !! "r2" = Some a → results !! "mae" = Some b →
  results !! "rmse" = Some c →
  record_scores s results !! "r2" = Some (a ++ [s.1.1])%list ∧
  record_scores s results !! "mae" = Some (b ++ [s.1.2])%list ∧
  record_scores s results !! "rmse" = Some (c ++ [s.2])%list.
Proof.
  intros Ha Hb Hc. destruct s as [[r2 mae] rmse]. unfold record_scores.
  set (m1 := append_to "r2" r2 results).
  assert (m1 !! "r2" = Some (a ++ [r2])%list ∧ m1 !! "mae" = Some b
          ∧ m1 !! "rmse" = Some c) as (A1 & B1 & C1).
  { unfold m1. by rewrite !(append_to_lookup _ _ _ _ a Ha). }
  set (m2 := append_to "mae" mae m1).
  assert (m2 !! "r2" = Some (a ++ [r2])%list ∧ m2 !! "mae" = Some (b ++ [mae])%list
          ∧ m2 !! "rmse" = Some c) as (A2 & B2 & C2).
  { unfold m2. by rewrite !(append_to_lookup _ _ _ _ b B1). }
  by rewrite !(append_to_lookup _ _ _ _ c C2).
Qed.

(** The three lists after the scores [ss] have been recorded in turn. *)
Definition recorded (ss : list scores) (results : gmap string (list Q)) : Prop :=
  results !! "r2" = Some ((λ s : scores, s.1.1) <$> ss) ∧
  results !! "mae" = Some ((λ s : scores, s.1.2) <$> ss) ∧
  results !! "rmse" = Some ((λ s : scores, s.2) <$> ss).

Lemma recorded_snoc (ss : list scores) (s : scores)
  (results : gmap string (list Q)) :
  recorded ss results → recorded (ss ++ [s]) (record_scores s results).
Proof.
  intros (Ha & Hb & Hc).
  destruct (record_scores_lookup s results _ _ _ Ha Hb Hc) as (Ea & Eb & Ec).
  unfold recorded. by rewrite Ea, Eb, Ec, !fmap_app.
Qed.

Lemma recorded_new : recorded [] new_results.
Proof. by vm_compute. Qed.

Section Recording.
Context `{Estimator}.



Lemma run_folds_caught_spec (folds : list fold) (ss0 : list scores)
  (results : gmap string (list Q)) :
  recorded ss0 results →
  ∃ ss, (length ss ≤ length folds)%nat ∧
        Forall2 (λ f s, fit_and_score f = Ok s) (take (length ss) folds) ss ∧
        (length ss < length folds →
         ∃ f e, folds !! length ss = Some f ∧ fit_and_score f = Raise e) ∧
        recorded (ss0 ++ ss) (run_folds_caught folds results).
Proof.
  revert ss0 results. induction folds as [|f folds IH]; intros ss0 results Hr; cbn.
  - exists []. cbn. split; [lia|]. split; [constructor|]. split; [lia|].
    by rewrite app_nil_r.
  - destruct (fit_and_score f) as [s|e] eqn:Ef.
    + destruct (IH (ss0 ++ [s]) (record_scores s results) (recorded_snoc _ _ _ Hr))
        as (ss & Hlen & Hss & Hstop & Hrec).
      exists (s :: ss). cbn. split; [lia|]. split; [by constructor|].
      split; [intros ?; apply Hstop; lia|]. by rewrite <- app_assoc in Hrec.
    + exists []. cbn. split; [lia|]. split; [constructor|].
      split; [intros _; by exists f, e|]. by rewrite app_nil_r.
Qed.
End Recording.

Section SpatialOutcome.
Context `{Numerics} `{Estimator}.

Lemma spatial_cv_cases (df : Frame) (n_splits : Z) :
  match spatial_cv df n_splits with
  | Raise e =>
      e = ValueError ∧
      ∃ groups, district_column df = Some groups ∧
                (Z.min n_splits (Z.of_nat (length (classes_of groups))) ≤ 1)%Z
  | Ok results =>
      (district_column df = None ∧ results = ∅) ∨
      ∃ groups folds ss,
        district_column df = Some groups ∧
        (1 < Z.min n_splits (Z.of_nat (length (classes_of groups))))%Z ∧
        spatial_folds df n_splits = Ok folds ∧
        (length ss ≤ length folds)%nat ∧
        Forall2 (λ f s, fit_and_score f = Ok s) (take (length ss) folds) ss ∧
        (length ss < length folds →
         ∃ f e, folds !! length ss = Some f ∧ fit_and_score f = Raise e) ∧
        recorded ss results
  end.
Proof.
  unfold spatial_cv, spatial_folds, GroupKFold.
  destruct (district_column df) as [groups|] eqn:Hd; [|by left].
  destruct (Z.leb_spec (Z.min n_splits (Z.of_nat (length (classes_of groups)))) 1)
    as [Hle|Hgt]; cbn.
  { split; [done|]. by exists groups. }
  rewrite split_folds by lia.
  destruct (run_folds_caught_spec
              (fold_at (Z.to_nat (Z.min n_splits
                                    (Z.of_nat (length (classes_of groups)))))
                       groups
                 <$> seq 0 (Z.to_nat (Z.min n_splits
                                        (Z.of_nat (length (classes_of groups))))))
              [] new_results recorded_new)
    as (ss & Hlen & Hss & Hstop & Hrec).
  right. exists groups. eexists _, ss. done.
Qed.

(** X12.  [spatial_cv] raises exactly on a district column with fewer than two
    distinct districts (or fewer than two splits asked for), and then a
    [ValueError], from the constructor of [GroupKFold] outside the [try].
    Otherwise it returns whatever the estimator does: [{}] without a
    district column, else the scores of the folds fitted before the first
    failure of the estimator, the three lists in step. *)
Theorem spatial_cv_outcome (df : Frame) (n_splits : Z) :
  match spatial_cv df n_splits with
  | Raise e =>
      e = ValueError ∧
      ∃ groups, district_column df = Some groups ∧
                (Z.min n_splits (Z.of_nat (length (classes_of groups))) ≤ 1)%Z
  | Ok results =>
      (district_column df = None ∧ results = ∅) ∨
      ∃ groups folds ss,
        district_column df = Some groups ∧
        (1 < Z.min n_splits (Z.of_nat (length (classes_of groups))))%Z ∧
        spatial_folds df n_splits = Ok folds ∧
        (length ss ≤ length folds)%nat ∧
        Forall2 (λ f s, fit_and_score f = Ok s) (take (length ss) folds) ss ∧
        (length ss < length folds →
         ∃ f e, folds !! length ss = Some f ∧ fit_and_score f = Raise e) ∧
        recorded ss results
  end.
Proof. exact (spatial_cv_cases df n_splits). Qed.

(** X13.  The run through [train_production_model] aborts on a table with a
    district column of a single district, whatever the estimator does in
    the spatial folds: the temporal strategy having returned, the spatial
    one raises [ValueError]. *)
Theorem single_district_aborts (df : Frame) (groups : list string)
  (temporal_results : gmap string (list Q)) :
  district_column df = Some groups →
  (length (classes_of groups) ≤ 1)%nat →
  temporal_cv df 5 = Ok temporal_results →
  train_production_model df = Raise ValueError.
Proof.
  intros Hd Hone Ht. unfold train_production_model. rewrite Ht. cbn.
  pose proof (spatial_cv_cases df 5) as Hs.
  destruct (spatial_cv df 5) as [res|e]; cbn.
  - destruct Hs as [[Hn _]|(g & _ & _ & Hg & Hmin & _)]; [congruence|].
    rewrite Hd in Hg. injection Hg as <-. lia.
  - by destruct Hs as [-> _].
Qed.

(** X14.  When [train_production_model] returns, both strategies have returned,
    and each mean is the hold-out R² where the strategy returned [{}] and
    the mean of the recorded R² scores where it returned its three lists:
    NaN when no fold was recorded. *)
Theorem metrics_of_validation (df : Frame) (m : metrics) :
  train_production_model df = Ok m →
  ∃ tr sr, temporal_cv df 5 = Ok tr ∧ spatial_cv df 5 = Ok sr ∧
    r2_score m = holdout_r2 ∧
    (tr = ∅ → ∃ q, temporal_cv_r2_mean m = Some q ∧ (q == holdout_r2)%Q) ∧
    (sr = ∅ → ∃ q, spatial_cv_r2_mean m = Some q ∧ (q == holdout_r2)%Q) ∧
    (∀ ss, recorded ss tr →
           temporal_cv_r2_mean m = np_mean ((λ s : scores, s.1.1) <$> ss)) ∧
    (∀ ss, recorded ss sr →
           spatial_cv_r2_mean m = np_mean ((λ s : scores, s.1.1) <$> ss)).
Proof.
  unfold train_production_model.
  destruct (temporal_cv df 5) as [tr|e]; [|done]. cbn.
  destruct (spatial_cv df 5) as [sr|e]; [|done]. cbn.
  intros [= <-]. exists tr, sr. cbn.
  split; [done|]. split; [done|]. split; [done|].
  split; [|split; [|split]].
  - intros ->. apply fallback_on_empty_dict.
  - intros ->. apply fallback_on_empty_dict.
  - intros ss (Hr & _). unfold get. by rewrite Hr.
  - intros ss (Hr & _). unfold get. by rewrite Hr.
Qed.
End SpatialOutcome.

(** ** What [preprocess_data] returns *)

Definition plain : Numerics :=
  {| num_text _ := ""; text_num _ := None; np_sqrt q := q |}.

Definition steady : Estimator :=
  {| fit_and_score _ := Ok (1, 0, 0)%Q; holdout_r2 := 1%Q |}.

Section Returned.
Context `{Numerics} `{Generator}.

(** When [m] returns from a state in [P], value and state are in [Q]. *)
Definition triple {A} (P : state → Prop) (m : M A) (Q : A → state → Prop) : Prop :=
  ∀ st, P st → ∀ a st', m st = (Ok a, st') → Q a st'.

Lemma triple_any {A} (P : state → Prop) (m : M A) : triple P m (λ _ _, True).
Proof. by intros st _ a st' _. Qed.

Lemma triple_bind {A B} (P : state → Prop) (R : A → state → Prop)
  (Q : B → state → Prop) (m : M A) (k : A → M B) :
  triple P m R → (∀ a, triple (R a) (k a) Q) → triple P (m ≫= k) Q.
Proof.
  intros Hm Hk st HP b st'. unfold mbind, M_bind.
  destruct (m st) as [[a|e] st1] eqn:Em; [|done].
  intros Hka. eapply Hk; [|exact Hka]. by eapply Hm.
Qed.

Lemma preprocess_data_fresh (h0 : gmap loc DataFrame) (df : loc) :
  keeps h0 (preprocess_data df) (λ r, h0 !! r.1.1 = None).
Proof.
  unfold preprocess_data.
  eapply keeps_bind; [apply keeps_df_copy|]. intros l Hl. cbn beta.
  do 5 (eapply keeps_bind; [by apply keeps_mutate|]; intros _ _).
  eapply keeps_bind; [by apply keeps_mutate_r|]. intros _ _.
  eapply keeps_bind.
  { eapply keeps_bind; [apply keeps_read|]. intros d _.
    eapply keeps_bind; [apply keeps_lift|]. intros d' _. apply keeps_alloc. }
  clear l Hl. intros l Hl. cbn beta.
  eapply keeps_bind; [by apply keeps_mutate_rng|]. intros _ _.
  do 3 (eapply keeps_bind; [by apply keeps_mutate_r|]; intros _ _).
  eapply keeps_bind; [by apply keeps_mutate|]. intros _ _.
  eapply keeps_bind.
  { eapply keeps_bind; [apply keeps_read|]. intros d _.
    destruct (has_column "year" d).
    - eapply keeps_bind; [apply keeps_lift|]. intros d' _.
      eapply keeps_bind; [apply keeps_alloc|]. intros l' Hl'. cbn beta.
      eapply keeps_bind; [by apply keeps_mutate_r|]. intros _ _.
      apply keeps_ret. exact Hl'.
    - apply keeps_ret. exact Hl. }
  clear l Hl. intros l Hl. cbn beta.
  eapply keeps_bind.
  { eapply keeps_bind; [apply keeps_read|]. intros d _.
    destruct (encode_categoricals d) as [d' enc].
    eapply keeps_bind; [by apply keeps_write|]. intros _ _.
    by apply (keeps_ret _ _ (λ _, True)). }
  intros enc _.
  eapply keeps_bind.
  { eapply keeps_bind; [apply keeps_read|]. intros d _.
    eapply keeps_bind; [apply keeps_lift|]. intros [d' sc] _.
    eapply keeps_bind; [by apply keeps_write|]. intros _ _.
    by apply (keeps_ret _ _ (λ _, True)). }
  intros sc _.
  eapply keeps_bind; [apply keeps_read|]. intros d _.
  eapply keeps_bind; [apply keeps_lift|]. intros _ _.
  by apply keeps_ret.
Qed.

Lemma preprocess_data_reported (df : loc) :
  triple (λ _, True) (preprocess_data df)
    (λ r st', ∃ d, heap st' !! r.1.1 = Some d ∧
                   has_column "state" d = true ∧ has_column "crop" d = true ∧
                   has_column "district" d = true ∧ has_column "yield" d = true).
Proof.
  unfold preprocess_data.
  do 16 (eapply triple_bind; [apply triple_any|]; intros ?).
  cbn beta. intros st _ r st'. unfold mbind, M_bind, read, lift, mret, M_ret.
  destruct (heap st !! _) as [d|] eqn:Ed; [|done].
  unfold final_stats.
  destruct (has_column "state" d) eqn:Hs; [|done].
  destruct (has_column "crop" d) eqn:Hc; [|done].
  destruct (has_column "district" d) eqn:Hd; [|done].
  destruct (has_column "yield" d) eqn:Hy; [|done].
  cbn. intros [= <- <-]. by exists d.
Qed.

(** X15.  When [preprocess_data] returns, the table it returns is a new object,
    not the argument nor any object that existed before the call, and it
    has the columns state, crop, district and yield: without one of them
    the closing report raises [KeyError]. *)
Theorem preprocess_data_returns (df : loc) (st st' : state)
  (l : loc) (enc : encoders) (sc : scaler) :
  preprocess_data df st = (Ok (l, enc, sc), st') →
  heap st !! l = None ∧ l ≠ df ∧ is_Some (heap st !! df) ∧
  ∃ d, heap st' !! l = Some d ∧
       has_column "state" d = true ∧ has_column "crop" d = true ∧
       has_column "district" d = true ∧ has_column "yield" d = true.
Proof.
  intros Hrun.
  destruct (preprocess_data_fresh (heap st) df st) as [_ Hfresh]; [done|].
  rewrite Hrun in Hfresh. specialize (Hfresh _ eq_refl). cbn in Hfresh.
  assert (is_Some (heap st !! df)) as Hdf.
  { destruct (heap st !! df) as [d|] eqn:E; [by eexists|].
    unfold preprocess_data, df_copy, read, mbind, M_bind in Hrun.
    by rewrite E in Hrun. }
  split; [done|]. split; [|split; [done|]].
  - intros ->. rewrite Hfresh in Hdf. by destruct Hdf.
  - by apply (preprocess_data_reported df st I _ _ Hrun).
Qed.
End Returned.

(** A raw table of one row, with labels and texts as a file may have them. *)
Definition raw_table : DataFrame :=
  mkDF ["State"; "District"; " Crop"; "Season"; "Yield"]
       [ {[ "State" := Str "Punjab"; "District" := Str "Ludhiana";
            " Crop" := Str " Rice"; "Season" := Str "Winter";
            "Yield" := Num (45 # 10) ]} ].

Definition start : @state cycle := @mkState cycle {[ 0%nat := raw_table ]} 0%nat.

Lemma preprocess_data_returns_witness :
  ∃ l enc sc st',
    @preprocess_data plain cycle 0%nat start = (Ok (l, enc, sc), st') ∧
    l ≠ 0%nat.
Proof.
  assert (∃ r st', @preprocess_data plain cycle 0%nat start = (Ok r, st'))
    as ([[l enc] sc] & st' & E).
  { eexists _, _. vm_compute. reflexivity. }
  exists l, enc, sc, st'. split; [exact E|].
  by destruct (@preprocess_data_returns plain cycle 0%nat start st' l enc sc E)
    as (_ & ? & _).
Defined.

Lemma single_district_aborts_witness :
  @train_production_model plain steady (mkFrame None (Some ["pune"; "pune"]))
  = Raise ValueError.
Proof.
  apply (@single_district_aborts plain steady _ ["pune"; "pune"] ∅).
  - reflexivity.
  - by vm_compute.
  - reflexivity.
Defined.

Lemma metrics_of_validation_witness :
  ∃ m, @train_production_model plain steady three_years = Ok m ∧
       r2_score m = 1%Q.
Proof.
  assert (∃ m, @train_production_model plain steady three_years = Ok m)
    as (m & E).
  { eexists. reflexivity. }
  exists m. split; [exact E|].
  by destruct (@metrics_of_validation plain steady three_years m E)
    as (tr & sr & _ & _ & ? & _).
Defined.

(** ** Step 1: normalising the labels *)

Definition blank_to_underscore (c : ascii) : ascii :=
  if Ascii.eqb c " " then "_"%char else c.

Lemma replace_blank_cons (c : ascii) (s : string) :
  replace_blank (String c s) = String (blank_to_underscore c) (replace_blank s).
Proof. reflexivity. Qed.

Lemma lower_blank_to_underscore (c : ascii) :
  lower_ascii (blank_to_underscore c) = blank_to_underscore (lower_ascii c).
Proof. destruct c as [[] [] [] [] [] [] [] []]; reflexivity. Qed.

Lemma blank_to_underscore_idem (c : ascii) :
  blank_to_underscore (blank_to_underscore c) = blank_to_underscore c.
Proof. destruct c as [[] [] [] [] [] [] [] []]; reflexivity. Qed.

Lemma blank_to_underscore_space (c : ascii) :
  is_space c = false →
  blank_to_underscore c = c.
Proof. destruct c as [[] [] [] [] [] [] [] []]; done. Qed.

Lemma lower_replace_blank (s : string) :
  lower (replace_blank s) = replace_blank (lower s).
Proof.
  induction s as [|c s IH]; [done|].
  cbn [lower]. rewrite !replace_blank_cons. cbn [lower].
  by rewrite lower_blank_to_underscore, IH.
Qed.

Lemma replace_blank_idem (s : string) :
  replace_blank (replace_blank s) = replace_blank s.
Proof.
  induction s as [|c s IH]; [done|].
  rewrite !replace_blank_cons. by rewrite blank_to_underscore_idem, IH.
Qed.

Lemma no_lead_replace_blank (s : string) :
  no_lead s → no_lead (replace_blank s).
Proof.
  destruct s as [|c s]; [done|]. rewrite replace_blank_cons. cbn.
  intros Hc. by rewrite blank_to_underscore_space.
Qed.

Lemma rstrip_replace_blank (s : string) :
  rstrip s = s → rstrip (replace_blank s) = replace_blank s.
Proof.
  induction s as [|c s IH]; [done|].
  rewrite replace_blank_cons. cbn [rstrip].
  destruct (rstrip s) as [|d t] eqn:E.
  - destruct (is_space c) eqn:Ec; [done|]. intros [= <-].
    cbn. by rewrite blank_to_underscore_space, Ec.
  - intros [= Hs]. rewrite IH by done. rewrite <- Hs.
    by rewrite replace_blank_cons.
Qed.

Lemma normalize_name_idem (c : string) :
  normalize_name (normalize_name c) = normalize_name c.
Proof.
  unfold normalize_name.
  assert (strip (replace_blank (lower (strip c)))
          = replace_blank (lower (strip c))) as ->.
  { rewrite lower_strip. unfold strip at 1.
    rewrite no_lead_lstrip.
    - apply rstrip_replace_blank. unfold strip. apply rstrip_idem.
    - apply no_lead_replace_blank. unfold strip.
      apply no_lead_rstrip, lstrip_no_lead. }
  by rewrite lower_replace_blank, lower_idem, replace_blank_idem.
Qed.

Lemma lookup_renamed_is_Some (f : string → string) (v : string → cell)
  (cs : list string) (k : string) :
  is_Some ((list_to_map ((λ c, (f c, v c)) <$> cs) : gmap string cell) !! k)
  ↔ k ∈ f <$> cs.
Proof.
  induction cs as [|c cs IH]; cbn.
  - rewrite lookup_empty, elem_of_nil. split; [by intros [] | done].
  - rewrite lookup_insert, elem_of_cons. case_decide as Hk.
    + split; [by left | by eexists].
    + rewrite IH. split; [by right | by intros [?|?]].
Qed.

Lemma lookup_keyed (f : string → string) (w : string → cell)
  (cs : list string) (k : string) :
  (list_to_map ((λ c, (f c, w (f c))) <$> cs) : gmap string cell) !! k
  = if decide (k ∈ f <$> cs) then Some (w k) else None.
Proof.
  induction cs as [|c cs IH]; cbn.
  - rewrite lookup_empty. by rewrite decide_False by apply not_elem_of_nil.
  - rewrite lookup_insert. destruct (decide (f c = k)) as [<-|Hne].
    + by rewrite decide_True by apply list_elem_of_here.
    + rewrite IH. destruct (decide (k ∈ f <$> cs)) as [Hin|Hnin].
      * by rewrite decide_True by by apply list_elem_of_further.
      * rewrite decide_False; [done|]. rewrite elem_of_cons.
        by intros [?|?].
Qed.

Lemma rename_row_twice (f : string → string) (cs : list string)
  (r : gmap string cell) :
  (∀ c, f (f c) = f c) →
  let r' : gmap string cell :=
    list_to_map ((λ c : string, (f c, r !!! c)) <$> cs) in
  (list_to_map ((λ c : string, (f c, r' !!! c)) <$> (f <$> cs))
   : gmap string cell) = r'.
Proof.
  intros Hf r'. rewrite <- list_fmap_compose. apply map_eq. intros k.
  erewrite (list_fmap_ext _ (λ c : string, (f c, (λ k' : string, r' !!! k') (f c))));
    [|intros j c _; cbn; by rewrite Hf].
  rewrite (lookup_keyed f (λ k' : string, r' !!! k')).
  destruct (decide (k ∈ f <$> cs)) as [Hk|Hk].
  - apply (lookup_renamed_is_Some f (λ c, r !!! c)) in Hk as [v Hv].
    fold r' in Hv. by rewrite (lookup_total_correct _ _ _ Hv).
  - symmetry. apply eq_None_not_Some. unfold r'.
    by rewrite (lookup_renamed_is_Some f (λ c, r !!! c)).
Qed.

(** Step 1, which needs none of the library functions. *)
Definition normalize_columns_of (df : DataFrame) : DataFrame :=
  rename_columns normalize_name df.

(** X6.  Normalising the labels of a table a second time changes nothing:
    a normalised label is trimmed, lower-cased and free of blanks. *)
Theorem normalize_columns_idempotent (df : DataFrame) :
  (∀ c, normalize_name (normalize_name c) = normalize_name c) ∧
  normalize_columns_of (normalize_columns_of df) = normalize_columns_of df.
Proof.
  split; [apply normalize_name_idem|].
  unfold normalize_columns_of, rename_columns. cbn. f_equal.
  - rewrite <- list_fmap_compose. apply list_fmap_ext. intros i c _. cbn.
    apply normalize_name_idem.
  - rewrite <- list_fmap_compose. apply list_fmap_ext. intros i r _. cbn.
    apply (rename_row_twice normalize_name (columns df) r normalize_name_idem).
Qed.
